(** * QuestionnaireProcessor: the scoring and progress core of [app.py]

    A shallow embedding of the class [QuestionnaireProcessor] (grade codec,
    the three aggregation passes, the progress tracker) together with the
    Python builtins it relies on, followed by the properties established
    for it.

    Modelling conventions.
    - [str] is [string]; characters are the ASCII characters.
    - [int] is [Z]; conversions between [str] and [int] follow the
      interpreter's defaults, among them the limit of 4300 digits.
    - [float] is modelled by the exact rationals [Q], kept in lowest terms;
      the rounding of binary floating point arithmetic is not modelled. A
      quotient of two [int] is the number whose nearest double the
      interpreter holds; a sum of [float] is rounded by the interpreter at
      every addition, so what is stated here about the scores computed by
      such sums is their presence, their keys and their range, never their
      last digits.
    - [dict] is an insertion-ordered association list with distinct keys
      (module [Dict]); [list] is [list].
    - A raised exception is the [Raise] case of [result].
    - The attributes of [self] and the argument object [answers] live in a
      [heap]; methods are heap transformers. *)

From Stdlib Require Import List String Ascii Bool Arith ZArith NArith QArith.
From Stdlib Require Import Qround Qreduction Qabs Lia Lqa DecimalString DecimalZ.
From Stdlib Require Import Permutation.
Import ListNotations.

Local Open Scope string_scope.
Local Open Scope list_scope.
Local Open Scope Z_scope.

(* ===================================================================== *)
(** * Exceptions                                                           *)
(* ===================================================================== *)

Inductive exn : Type :=
| ValueError
| KeyError
| IndexError.

Inductive result (A : Type) : Type :=
| Ok (a : A)
| Raise (e : exn).

Arguments Ok {A} a.
Arguments Raise {A} e.

Definition rbind {A B : Type} (r : result A) (k : A -> result B) : result B :=
  match r with
  | Ok a => k a
  | Raise e => Raise e
  end.

Declare Scope result_scope.
Delimit Scope result_scope with result.
Notation "x <- r ;; k" := (rbind r (fun x => k))
  (at level 61, r at next level, right associativity) : result_scope.

(* ===================================================================== *)
(** * Python builtins                                                      *)
(* ===================================================================== *)

Module Py.

(** [str.upper] on ASCII strings. *)
Definition upper_char (c : ascii) : ascii :=
  let n := N_of_ascii c in
  if ((97 <=? n) && (n <=? 122))%N then ascii_of_N (n - 32) else c.

Fixpoint upper (s : string) : string :=
  match s with
  | EmptyString => EmptyString
  | String c r => String (upper_char c) (upper r)
  end.

(** [s.split(sep)] for a one-character separator: every occurrence of the
    separator ends a segment, so the result has one more segment than
    [s] has separators and is never empty. *)
Fixpoint split (sep : ascii) (s : string) : list string :=
  match s with
  | EmptyString => [EmptyString]
  | String c r =>
      if Ascii.eqb c sep then EmptyString :: split sep r
      else match split sep r with
           | [] => [String c EmptyString]
           | seg :: segs => String c seg :: segs
           end
  end.

(** [s.startswith(p)]. *)
Definition startswith (s p : string) : bool := String.prefix p s.

(** [str(n)] for an [int], also as an f-string prints it. The interpreter
    raises [ValueError] for a number of more than [int_max_str_digits]
    digits; here [str] is applied to positions in lists of questions
    and to numbers that [int] has returned, which have fewer. *)
Definition str (n : Z) : string := NilZero.string_of_int (Z.to_int n).

(** Whitespace as [str.strip] removes it (ASCII range): tab to carriage
    return, the four separators 28..31 and the space. *)
Definition is_space (c : ascii) : bool :=
  let n := N_of_ascii c in
  (((9 <=? n) && (n <=? 13)) || ((28 <=? n) && (n <=? 32)))%N.

Fixpoint lstrip (s : string) : string :=
  match s with
  | EmptyString => EmptyString
  | String c r => if is_space c then lstrip r else s
  end.

Fixpoint rstrip (s : string) : string :=
  match s with
  | EmptyString => EmptyString
  | String c r =>
      match rstrip r with
      | EmptyString => if is_space c then EmptyString else String c EmptyString
      | r' => String c r'
      end
  end.

Definition strip (s : string) : string := rstrip (lstrip s).

Definition digit_of (c : ascii) : option Z :=
  let n := N_of_ascii c in
  if ((48 <=? n) && (n <=? 57))%N then Some (Z.of_N (n - 48)) else None.

(** The digit part of a decimal literal: at least one digit, single
    underscores allowed between digits. [prev] tells whether the
    previous character was a digit. *)
Fixpoint digits (s : string) (acc : Z) (prev : bool) : option Z :=
  match s with
  | EmptyString => if prev then Some acc else None
  | String c r =>
      match digit_of c with
      | Some d => digits r (10 * acc + d) true
      | None => if Ascii.eqb c "_" && prev then digits r acc false else None
      end
  end.

(** Whitespace as [int()] skips it around a literal. On an ASCII string
    the parser tests the characters against the C table of blanks: tab to
    carriage return and the space. The separators 28..31, which
    [str.strip] removes, are not blanks for [int()]. *)
Definition is_blank (c : ascii) : bool :=
  let n := N_of_ascii c in
  (((9 <=? n) && (n <=? 13)) || (n =? 32))%N.

Fixpoint skip_blanks (s : string) : string :=
  match s with
  | EmptyString => EmptyString
  | String c r => if is_blank c then skip_blanks r else s
  end.

Fixpoint drop_blanks (s : string) : string :=
  match s with
  | EmptyString => EmptyString
  | String c r =>
      match drop_blanks r with
      | EmptyString => if is_blank c then EmptyString else String c EmptyString
      | r' => String c r'
      end
  end.

(** The number of decimal digits in a string. *)
Fixpoint count_digits (s : string) : Z :=
  match s with
  | EmptyString => 0
  | String c r =>
      match digit_of c with
      | Some _ => 1 + count_digits r
      | None => count_digits r
      end
  end.

(** [sys.get_int_max_str_digits()]: the interpreter's limit on the number
    of digits in a conversion between [str] and [int], at its default.
    The program never changes it. *)
Definition int_max_str_digits : Z := 4300.

(** [int(s)] for a string, base ten: blanks around the literal are
    skipped, one sign is allowed, then digits with single underscores
    between them; a literal with more than [int_max_str_digits] digits
    (leading zeros count, underscores do not) and anything else raises
    [ValueError]. *)
Definition int (s : string) : result Z :=
  let t := drop_blanks (skip_blanks s) in
  let r := match t with
           | String "+" d => digits d 0 false
           | String "-" d => option_map Z.opp (digits d 0 false)
           | _ => digits t 0 false
           end in
  match r with
  | Some n =>
      if count_digits t <=? int_max_str_digits then Ok n else Raise ValueError
  | None => Raise ValueError
  end.

(** [round(x)] with one argument: nearest integer, ties to the even
    neighbour. *)
Definition round (x : Q) : Z :=
  let f := Qfloor x in
  match (x - inject_Z f ?= 1 # 2)%Q with
  | Lt => f
  | Gt => f + 1
  | Eq => if Z.even f then f else f + 1
  end.

(** [l[i]]: a negative index counts from the end, an index outside
    [-len(l) .. len(l)-1] raises [IndexError]. *)
Definition index {A : Type} (l : list A) (i : Z) : result A :=
  let n := Z.of_nat (List.length l) in
  let j := if i <? 0 then i + n else i in
  if (0 <=? j) && (j <? n)
  then match nth_error l (Z.to_nat j) with
       | Some a => Ok a
       | None => Raise IndexError
       end
  else Raise IndexError.

(** [sum(l)] for a list of [int]. *)
Definition sum_int (l : list Z) : Z := fold_left Z.add l 0.

(** [sum(l)] for a list of [float], in exact arithmetic: the interpreter
    rounds after every addition. *)
Definition sum_float (l : list Q) : Q := fold_left Qplus l (0 # 1)%Q.

(** [a / b], true division. It is only applied to a non-zero [b] here. *)
Definition truediv (a b : Q) : Q := Qred (a / b).

End Py.

(* ===================================================================== *)
(** * Dictionaries                                                         *)
(* ===================================================================== *)

(** A [dict] with [str] keys: the entries in insertion order. Assigning to a
    key that is present replaces the value in place, assigning to a new key
    appends an entry. *)
Module Dict.

Definition t (V : Type) : Type := list (string * V).

Section Operations.
Context {V : Type}.

(** [k in d] and [d[k]] in one: the value when the key is present. *)
Fixpoint get (d : t V) (k : string) : option V :=
  match d with
  | [] => None
  | (k', v) :: r => if String.eqb k k' then Some v else get r k
  end.

(** [k in d]. *)
Definition mem (d : t V) (k : string) : bool :=
  match get d k with Some _ => true | None => false end.

(** [d.get(k, default)]. *)
Definition get_default (d : t V) (k : string) (default : V) : V :=
  match get d k with Some v => v | None => default end.

(** [d[k]], raising [KeyError] for a missing key. *)
Definition getitem (d : t V) (k : string) : result V :=
  match get d k with Some v => Ok v | None => Raise KeyError end.

(** [d[k] = v]. *)
Fixpoint set (d : t V) (k : string) (v : V) : t V :=
  match d with
  | [] => [(k, v)]
  | (k', v') :: r =>
      if String.eqb k k' then (k', v) :: r else (k', v') :: set r k v
  end.

(** [d.keys()], [d.values()]. *)
Definition keys (d : t V) : list string := map fst d.
Definition values (d : t V) : list V := map snd d.

(** The representation invariant of a dict: no key occurs twice. *)
Definition wf (d : t V) : Prop := NoDup (keys d).

End Operations.

End Dict.

(** A field of a JSON object that may be missing: [o.get(field, default)]
    and [o[field]]. *)
Definition field_or {A : Type} (f : option A) (default : A) : A :=
  match f with Some a => a | None => default end.

Definition field {A : Type} (f : option A) : result A :=
  match f with Some a => Ok a | None => Raise KeyError end.

(** [for x in l: s = body(s, x)], stopping at the first exception. *)
Fixpoint for_each {A S : Type} (body : S -> A -> result S) (l : list A) (s : S)
  : result S :=
  match l with
  | [] => Ok s
  | x :: r => rbind (body s x) (for_each body r)
  end.

(* ===================================================================== *)
(** * Data model                                                           *)
(* ===================================================================== *)

(** The catalog as loaded from the question files; only the keys that the
    processor reads are kept. A key that the code reads with [.get] may be
    missing and is an [option]. *)

Record question : Type := {
  question_id : option string
}.

Record collection : Type := {
  collection_id : string;
  questions : option (list question)
}.

Record questionnaire_info : Type := {
  title : option string
}.

Record page_data : Type := {
  info : option questionnaire_info;
  question_collections : option (list collection)
}.

(** The value stored for an answered question: the selected option. *)
Record answer_data : Type := {
  option_id : string;
  option_text : string
}.

Record ScoreData : Type := {
  indicator_scores : Dict.t Z;
  criterion_scores : Dict.t Q;
  value_scores : Dict.t Q
}.

(** One entry of the progress statistics. *)
Record stats : Type := {
  total : Z;
  answered : Z;
  progress : Q
}.

(** The objects a method call can reach: the two attributes of [self] and
    the dict passed as [answers]. *)
Record heap : Type := {
  self_question_files : Dict.t page_data;
  self_score_cache : option (Dict.t Z * Dict.t Q * Dict.t Q);
  answers_object : Dict.t answer_data
}.

(** A method body: it returns or raises, and leaves a heap behind. *)
Definition method (A : Type) : Type := heap -> result A * heap.

Definition mret {A : Type} (a : A) : method A := fun h => (Ok a, h).

Definition mbind {A B : Type} (m : method A) (k : A -> method B) : method B :=
  fun h =>
    match m h with
    | (Ok a, h') => k a h'
    | (Raise e, h') => (Raise e, h')
    end.

Definition lift {A : Type} (r : result A) : method A := fun h => (r, h).

Definition read_answers : method (Dict.t answer_data) :=
  fun h => (Ok (answers_object h), h).

Definition read_question_files : method (Dict.t page_data) :=
  fun h => (Ok (self_question_files h), h).

Definition write_score_cache (c : Dict.t Z * Dict.t Q * Dict.t Q) : method unit :=
  fun h => (Ok tt, {| self_question_files := self_question_files h;
                      self_score_cache := Some c;
                      answers_object := answers_object h |}).

Declare Scope method_scope.
Delimit Scope method_scope with method.
Notation "x <- m ;; k" := (mbind m (fun x => k))
  (at level 61, m at next level, right associativity) : method_scope.

(* ===================================================================== *)
(** * Constants                                                            *)
(* ===================================================================== *)

Definition GRADE_MAPPING : Dict.t Z :=
  [("A", 0); ("B", 1); ("C", 2); ("D", 3); ("E", 4); ("F", 5); ("G", 6)].

Definition LETTER_MAPPING : list string :=
  ["A"; "B"; "C"; "D"; "E"; "F"; "G"].

(* ===================================================================== *)
(** * class QuestionnaireProcessor                                         *)
(* ===================================================================== *)

(** [__init__]: the heap of a call on a fresh processor. *)
Definition init (question_files : Dict.t page_data) (answers : Dict.t answer_data)
  : heap :=
  {| self_question_files := question_files;
     self_score_cache := None;
     answers_object := answers |}.

(** ** Grade codec *)

Definition option_id_to_grade (option_id : string) : Z :=
  Dict.get_default GRADE_MAPPING (Py.upper option_id) 0.

Definition grade_to_letter (grade : Q) : result string :=
  if Qle_bool 0 grade && Qle_bool grade 6
  then Py.index LETTER_MAPPING (Py.round grade)
  else Ok "A".

(** ** Indicator pass *)

(** The name a question is scored under: its [question_id], or
    ["<collection_id>_<question_index>"] when it has none. *)
Definition fallback_id (cid : string) (question_index : Z) : string :=
  (cid ++ "_" ++ Py.str question_index)%string.

(** The loop over the collections of the page (lines 75-82): the first
    collection with the wanted id whose question list is long enough
    receives the grade and ends the loop. *)
Fixpoint scan_collections (collections : list collection) (cid : string)
    (question_index : Z) (answer : answer_data) (indicator_scores : Dict.t Z)
  : result (Dict.t Z) :=
  match collections with
  | [] => Ok indicator_scores
  | c :: rest =>
      if String.eqb c.(collection_id) cid then
        (qs <- field c.(questions) ;;
         if question_index <? Z.of_nat (List.length qs) then
           (q <- Py.index qs question_index ;;
            let qid := field_or q.(question_id) (fallback_id cid question_index) in
            let grade := option_id_to_grade answer.(option_id) in
            Ok (Dict.set indicator_scores qid grade))
         else
           scan_collections rest cid question_index answer indicator_scores)%result
      else
        scan_collections rest cid question_index answer indicator_scores
  end.

(** The body of the loop over the answers (lines 66-82). *)
Definition indicator_step (question_files : Dict.t page_data)
    (indicator_scores : Dict.t Z) (item : string * answer_data)
  : result (Dict.t Z) :=
  let (answer_key, answer) := item in
  let parts := Py.split "_" answer_key in
  if (List.length parts <? 3)%nat then Ok indicator_scores
  else
    (question_index <- Py.int (nth 2 parts "") ;;
     let page_key := nth 0 parts "" in
     let cid := nth 1 parts "" in
     match Dict.get question_files page_key with
     | Some page =>
         collections <- field page.(question_collections) ;;
         scan_collections collections cid question_index answer indicator_scores
     | None => Ok indicator_scores
     end)%result.

Definition _calculate_indicator_scores (question_files : Dict.t page_data)
    (answers : Dict.t answer_data) : result (Dict.t Z) :=
  for_each (indicator_step question_files) answers [].

(** ** Criterion pass *)

(** [sum(scores) / len(scores)] for a list of [int]. *)
Definition mean_int (scores : list Z) : Q :=
  Py.truediv (inject_Z (Py.sum_int scores))
             (inject_Z (Z.of_nat (List.length scores))).

(** [sum(scores) / len(scores)] for a list of [float], in exact
    arithmetic. The double the interpreter computes is this number up to
    the rounding of the additions and of the division. *)
Definition mean_float (scores : list Q) : Q :=
  Py.truediv (Py.sum_float scores) (inject_Z (Z.of_nat (List.length scores))).

(** Lines 98-102: the indicator scores of the questions of one collection.
    A question without [question_id], or with an empty one, fails the
    truth test and adds nothing. *)
Definition question_scores (indicator_scores : Dict.t Z) (qs : list question)
  : list Z :=
  fold_left
    (fun scores q =>
       match q.(question_id) with
       | Some qid =>
           if negb (String.eqb qid "") then
             match Dict.get indicator_scores qid with
             | Some s => scores ++ [s]
             | None => scores
             end
           else scores
       | None => scores
       end)
    qs [].

(** Lines 93-105: the body of the loop over the collections. *)
Definition criterion_step (indicator_scores : Dict.t Z)
    (criterion_scores : Dict.t Q) (c : collection) : Dict.t Q :=
  let scores := question_scores indicator_scores (field_or c.(questions) []) in
  match scores with
  | [] => criterion_scores
  | _ :: _ => Dict.set criterion_scores c.(collection_id) (mean_int scores)
  end.

Definition _calculate_criterion_scores (question_files : Dict.t page_data)
    (indicator_scores : Dict.t Z) : Dict.t Q :=
  fold_left
    (fun criterion_scores (item : string * page_data) =>
       fold_left (criterion_step indicator_scores)
                 (field_or (snd item).(question_collections) [])
                 criterion_scores)
    question_files [].

(** ** Value pass *)

(** Line 114: the name a questionnaire is scored under. *)
Definition value_name (page_key : string) (page : page_data) : string :=
  match page.(info) with
  | Some i => field_or i.(title) page_key
  | None => page_key
  end.

(** Lines 118-122: the criterion scores of the collections of one page. *)
Definition collection_scores (criterion_scores : Dict.t Q)
    (collections : list collection) : list Q :=
  fold_left
    (fun scores c =>
       match Dict.get criterion_scores c.(collection_id) with
       | Some s => scores ++ [s]
       | None => scores
       end)
    collections [].

(** Lines 113-125: the body of the loop over the pages. *)
Definition value_step (criterion_scores : Dict.t Q) (value_scores : Dict.t Q)
    (item : string * page_data) : Dict.t Q :=
  let (page_key, page) := item in
  let scores :=
    collection_scores criterion_scores (field_or page.(question_collections) []) in
  match scores with
  | [] => value_scores
  | _ :: _ => Dict.set value_scores (value_name page_key page) (mean_float scores)
  end.

Definition _calculate_value_scores (question_files : Dict.t page_data)
    (criterion_scores : Dict.t Q) : Dict.t Q :=
  fold_left (value_step criterion_scores) question_files [].

(** ** calculate_all_scores *)

Definition calculate_all_scores : method ScoreData :=
  (answers <- read_answers ;;
   match answers with
   | [] => mret {| indicator_scores := [];
                   criterion_scores := [];
                   value_scores := [] |}
   | _ :: _ =>
       question_files <- read_question_files ;;
       indicator_scores <-
         lift (_calculate_indicator_scores question_files answers) ;;
       let criterion_scores :=
         _calculate_criterion_scores question_files indicator_scores in
       let value_scores :=
         _calculate_value_scores question_files criterion_scores in
       _ <- write_score_cache (indicator_scores, criterion_scores, value_scores) ;;
       mret {| indicator_scores := indicator_scores;
               criterion_scores := criterion_scores;
               value_scores := value_scores |}
   end)%method.

(** ** get_progress_data *)

(** Lines 140-141: the number of answer keys that start with
    ["<page_name>_<collection_id>"]. *)
Definition collection_answered (answers : Dict.t answer_data)
    (page_name cid : string) : Z :=
  Z.of_nat
    (List.length
       (filter (fun k => Py.startswith k (page_name ++ "_" ++ cid)%string)
               (Dict.keys answers))).

(** Lines 137-144: the body of the loop over the collections; the state is
    [(total_questions, answered_questions)]. *)
Definition progress_collection_step (answers : Dict.t answer_data)
    (page_name : string) (counts : Z * Z) (c : collection) : result (Z * Z) :=
  let (total_questions, answered_questions) := counts in
  (qs <- field c.(questions) ;;
   let collection_total := Z.of_nat (List.length qs) in
   let collection_answered := collection_answered answers page_name c.(collection_id) in
   Ok (total_questions + collection_total,
       answered_questions + collection_answered))%result.

(** [answered / total if total > 0 else 0]. *)
Definition ratio (answered total : Z) : Q :=
  if 0 <? total then Py.truediv (inject_Z answered) (inject_Z total) else 0%Q.

(** Lines 134-153: the body of the loop over the pages; the state is
    [(progress_data, total_all, answered_all)]. *)
Definition progress_page_step (answers : Dict.t answer_data)
    (state : Dict.t stats * Z * Z) (item : string * page_data)
  : result (Dict.t stats * Z * Z) :=
  let '(progress_data, total_all, answered_all) := state in
  let (page_name, page) := item in
  (collections <- field page.(question_collections) ;;
   counts <- for_each (progress_collection_step answers page_name) collections (0, 0) ;;
   let (total_questions, answered_questions) := counts : Z * Z in
   Ok (Dict.set progress_data page_name
                {| total := total_questions;
                   answered := answered_questions;
                   progress := ratio answered_questions total_questions |},
       total_all + total_questions,
       answered_all + answered_questions))%result.

Definition get_progress_data : method (Dict.t stats) :=
  (answers <- read_answers ;;
   question_files <- read_question_files ;;
   state <- lift (for_each (progress_page_step answers) question_files ([], 0, 0)) ;;
   let '(progress_data, total_all, answered_all) := state in
   mret (Dict.set progress_data "overall"
                  {| total := total_all;
                     answered := answered_all;
                     progress := ratio answered_all total_all |}))%method.

(** The value a call returns, and the heap it leaves. *)
Definition returns {A : Type} (m : method A) (h : heap) : result A := fst (m h).
Definition heap_after {A : Type} (m : method A) (h : heap) : heap := snd (m h).

(* ===================================================================== *)
(** * Vocabulary of the specification                                      *)
(* ===================================================================== *)

(** A heap from its three objects. *)
Definition call (question_files : Dict.t page_data)
    (cache : option (Dict.t Z * Dict.t Q * Dict.t Q))
    (answers : Dict.t answer_data) : heap :=
  {| self_question_files := question_files;
     self_score_cache := cache;
     answers_object := answers |}.

(** The grade codec as the specification words it: a case-insensitive
    table from the letters A..G to 0..6, and 0 for anything else. *)
Definition letter_table : list (string * string * Z) :=
  [("A", "a", 0); ("B", "b", 1); ("C", "c", 2); ("D", "d", 3);
   ("E", "e", 4); ("F", "f", 5); ("G", "g", 6)].

Definition letterToValue (code : string) : Z :=
  match find (fun row => String.eqb code (fst (fst row))
                         || String.eqb code (snd (fst row))) letter_table with
  | Some row => snd row
  | None => 0
  end.

(** The letter at a position of the alphabet A..G. *)
Definition letter_at (n : Z) : string := nth (Z.to_nat n) LETTER_MAPPING "".

(** A catalog is conformant when every questionnaire has its list of
    collections and every collection its list of questions. *)
Definition has_questions (c : collection) : bool :=
  match c.(questions) with Some _ => true | None => false end.

Definition conformant_page (page : page_data) : bool :=
  match page.(question_collections) with
  | Some cs => forallb has_questions cs
  | None => false
  end.

Definition conformant (question_files : Dict.t page_data) : bool :=
  forallb (fun item => conformant_page (snd item)) question_files.

(** The segments of an answer key. *)
Definition segments (answer_key : string) : list string := Py.split "_" answer_key.

(** An answer key is well formed when it has fewer than three segments or
    its third segment is a literal that [int] reads as a natural number. *)
Definition key_ok (answer_key : string) : bool :=
  (List.length (segments answer_key) <? 3)%nat
  || match Py.int (nth 2 (segments answer_key) "") with
     | Ok n => 0 <=? n
     | Raise _ => false
     end.

(** An answer key resolves against the catalog when it has at least three
    segments, the first names a questionnaire, the second a collection of
    that questionnaire, and the third a position in that collection's
    question list. *)
Definition resolves (question_files : Dict.t page_data) (answer_key : string)
  : bool :=
  let parts := segments answer_key in
  (3 <=? List.length parts)%nat
  && match Py.int (nth 2 parts ""), Dict.get question_files (nth 0 parts "") with
     | Ok n, Some page =>
         existsb (fun c => String.eqb c.(collection_id) (nth 1 parts "")
                           && (0 <=? n)
                           && (n <? Z.of_nat (List.length (field_or c.(questions) []))))
                 (field_or page.(question_collections) [])
     | _, _ => false
     end.

(** The collections of a page and of the whole catalog, in iteration order. *)
Definition collections_of (page : page_data) : list collection :=
  field_or page.(question_collections) [].

Definition all_collections (question_files : Dict.t page_data) : list collection :=
  flat_map (fun item => collections_of (snd item)) question_files.

Definition questions_of (c : collection) : list question :=
  field_or c.(questions) [].

(** A question that carries a non-empty [question_id]. *)
Definition has_id (q : question) : bool :=
  match q.(question_id) with
  | Some qid => negb (String.eqb qid "")
  | None => false
  end.

Definition id_of (q : question) : string := field_or q.(question_id) "".

(** The questions of a collection that appear in the indicator map under
    their [question_id], and their indicator scores. *)
Definition scored_questions (indicator : Dict.t Z) (c : collection) : list question :=
  filter (fun q => Dict.mem indicator (id_of q)) (questions_of c).

Definition scores_of_questions (indicator : Dict.t Z) (qs : list question) : list Z :=
  map (fun q => Dict.get_default indicator (id_of q) 0) qs.

(** The collections of a page that appear in the criterion map, and their
    criterion scores. *)
Definition scored_collections (criterion : Dict.t Q) (page : page_data)
  : list collection :=
  filter (fun c => Dict.mem criterion c.(collection_id)) (collections_of page).

Definition scores_of_collections (criterion : Dict.t Q) (cs : list collection)
  : list Q :=
  map (fun c => Dict.get_default criterion c.(collection_id) 0%Q) cs.

(** Progress counts as the specification words them: sums over the
    collections of a page, and over the pages. *)
Definition sumZ (l : list Z) : Z := fold_right Z.add 0 l.

Definition page_total (page : page_data) : Z :=
  sumZ (map (fun c => Z.of_nat (List.length (questions_of c))) (collections_of page)).

Definition page_answered (answers : Dict.t answer_data) (page_name : string)
    (page : page_data) : Z :=
  sumZ (map (fun c => collection_answered answers page_name c.(collection_id))
            (collections_of page)).

Definition page_stats (answers : Dict.t answer_data) (page_name : string)
    (page : page_data) : stats :=
  {| total := page_total page;
     answered := page_answered answers page_name page;
     progress := ratio (page_answered answers page_name page) (page_total page) |}.

Definition overall_stats (question_files : Dict.t page_data)
    (answers : Dict.t answer_data) : stats :=
  let t := sumZ (map (fun item => page_total (snd item)) question_files) in
  let a := sumZ (map (fun item => page_answered answers (fst item) (snd item))
                     question_files) in
  {| total := t; answered := a; progress := ratio a t |}.

(** A loop that assigns [d[key x] = v] for the items [x] that have a value
    [v], and the value that the last such assignment to a key [k] leaves. *)
Section LastWins.
Context {A V : Type} (key : A -> string) (val : A -> option V).

Definition assign (d : Dict.t V) (x : A) : Dict.t V :=
  match val x with
  | Some v => Dict.set d (key x) v
  | None => d
  end.

Fixpoint last_assigned (k : string) (l : list A) : option V :=
  match l with
  | [] => None
  | x :: r =>
      match last_assigned k r with
      | Some v => Some v
      | None => if String.eqb (key x) k then val x else None
      end
  end.

End LastWins.

(** The scores that the criterion pass collects for a collection, and the
    criterion score it assigns, if any. *)
Definition scores_for (indicator : Dict.t Z) (c : collection) : list Z :=
  question_scores indicator (field_or c.(questions) []).

Definition criterion_value (indicator : Dict.t Z) (c : collection) : option Q :=
  match scores_for indicator c with
  | [] => None
  | _ :: _ => Some (mean_int (scores_for indicator c))
  end.

(** The scores that the value pass collects for a page, and the value
    score it assigns, if any. *)
Definition scores_for_page (criterion : Dict.t Q) (page : page_data) : list Q :=
  collection_scores criterion (field_or page.(question_collections) []).

Definition value_value (criterion : Dict.t Q) (item : string * page_data)
  : option Q :=
  match scores_for_page criterion (snd item) with
  | [] => None
  | _ :: _ => Some (mean_float (scores_for_page criterion (snd item)))
  end.

Definition item_name (item : string * page_data) : string :=
  value_name (fst item) (snd item).

(** What one collection contributes to the list the value pass collects. *)
Definition contribution (criterion : Dict.t Q) (c : collection) : list Q :=
  match Dict.get criterion c.(collection_id) with
  | Some s => [s]
  | None => []
  end.

Definition question_score (ind : Dict.t Z) (q : question) : option Z :=
  match q.(question_id) with
  | Some qid =>
      if negb (String.eqb qid "") then Dict.get ind qid else None
  | None => None
  end.

(** The entry that the progress loop assigns for a page. *)
Definition stats_value (answers : Dict.t answer_data) (item : string * page_data)
  : option stats :=
  Some (page_stats answers (fst item) (snd item)).

(** Line 210: the key under which the presentation layer stores the answer
    to question number [question_key] of a collection. *)
Definition answer_storage_key (page_key cid : string) (question_key : Z) : string :=
  (page_key ++ "_" ++ cid ++ "_" ++ Py.str question_key)%string.

(** A string in which a character does not occur, and a string made of
    decimal digits. *)
Fixpoint free_of (c : ascii) (s : string) : bool :=
  match s with
  | EmptyString => true
  | String a r => negb (Ascii.eqb a c) && free_of c r
  end.

Definition is_digit (c : ascii) : bool :=
  match Py.digit_of c with Some _ => true | None => false end.

Fixpoint all_digits (s : string) : bool :=
  match s with
  | EmptyString => true
  | String a r => is_digit a && all_digits r
  end.

(** The value of a decimal numeral read from the left, after [acc]. *)
Fixpoint uint_value (d : Decimal.uint) (acc : Z) : Z :=
  match d with
  | Decimal.Nil => acc
  | Decimal.D0 l => uint_value l (10 * acc + 0)
  | Decimal.D1 l => uint_value l (10 * acc + 1)
  | Decimal.D2 l => uint_value l (10 * acc + 2)
  | Decimal.D3 l => uint_value l (10 * acc + 3)
  | Decimal.D4 l => uint_value l (10 * acc + 4)
  | Decimal.D5 l => uint_value l (10 * acc + 5)
  | Decimal.D6 l => uint_value l (10 * acc + 6)
  | Decimal.D7 l => uint_value l (10 * acc + 7)
  | Decimal.D8 l => uint_value l (10 * acc + 8)
  | Decimal.D9 l => uint_value l (10 * acc + 9)
  end.

(** Sample catalog entries used by the examples. *)
Definition sample_question (qid : string) : question := {| question_id := Some qid |}.
Definition unnamed_question : question := {| question_id := None |}.
Definition sample_collection (cid : string) (qs : list question) : collection :=
  {| collection_id := cid; questions := Some qs |}.
Definition sample_page (t : string) (cs : list collection) : page_data :=
  {| info := Some {| title := Some t |}; question_collections := Some cs |}.
Definition chosen (letter : string) : answer_data :=
  {| option_id := letter; option_text := "" |}.

(** What [calculate_all_scores] returns once the indicator pass has
    produced its map, and what it returns for an empty answers map. *)
Definition scores_of (question_files : Dict.t page_data) (indicator : Dict.t Z)
  : ScoreData :=
  let criterion := _calculate_criterion_scores question_files indicator in
  {| indicator_scores := indicator;
     criterion_scores := criterion;
     value_scores := _calculate_value_scores question_files criterion |}.

Definition empty_scores : ScoreData :=
  {| indicator_scores := []; criterion_scores := []; value_scores := [] |}.

(** The ranges of indicator scores and of criterion and value scores. *)
Definition grade_range (v : Z) : Prop := 0 <= v <= 6.
Definition score_range (v : Q) : Prop := (0 <= v <= 6)%Q.

Ltac hide_floor x :=
  let f := fresh "f" in
  set (f := inject_Z (Qfloor x)) in *; clearbody f.

Definition sample_catalog : Dict.t page_data :=
  [("Q1", sample_page "Quality"
            [sample_collection "C1" [sample_question "I1"; sample_question "I2"]])].

Definition shared_catalog : Dict.t page_data :=
  [("P1", sample_page "One" [sample_collection "X" [sample_question "I1"]]);
   ("P2", sample_page "Two" [sample_collection "X" [sample_question "I2"]])].

Definition same_title_catalog : Dict.t page_data :=
  [("P1", sample_page "T" [sample_collection "C1" [sample_question "I1"]]);
   ("P2", sample_page "T" [sample_collection "C2" [sample_question "I2"]])].

Definition progress_catalog : Dict.t page_data :=
  [("Q1", sample_page "Quality"
            [sample_collection "C1" [unnamed_question; unnamed_question; unnamed_question];
             sample_collection "C2" [unnamed_question; unnamed_question; unnamed_question]])].

Definition overall_catalog : Dict.t page_data :=
  [("overall", sample_page "First" [sample_collection "C1" [unnamed_question]]);
   ("Q2", sample_page "Second"
            [sample_collection "C2" [unnamed_question; unnamed_question]])].

(** Line 307 of [summary_page]: the mean of the value scores, or 0 when
    there is none. *)
Definition overall_score (score_data : ScoreData) : Q :=
  match score_data.(value_scores) with
  | [] => 0%Q
  | _ :: _ => mean_float (Dict.values score_data.(value_scores))
  end.

(** Lines 280-290 of [display_score_section] (and lines 358-362 of the
    export): one row per entry, the name with the grade letter of its
    score. The formatting of the score itself is not modelled. *)
Definition score_rows (scores : Dict.t Q) : result (Dict.t string) :=
  for_each (fun rows (item : string * Q) =>
              rbind (grade_to_letter (snd item))
                    (fun letter => Ok (rows ++ [(fst item, letter)])))
           scores [].

(** The indicator scores as the numbers [display_score_section] receives. *)
Definition as_numbers (scores : Dict.t Z) : Dict.t Q :=
  map (fun item => (fst item, inject_Z (snd item))) scores.

(** The rows that [score_rows] produces for scores in range. *)
Definition lettered (scores : Dict.t Q) : Dict.t string :=
  map (fun item => (fst item, letter_at (Py.round (snd item)))) scores.

(** The question an answer key points at: position [n] of the first
    collection of the page that has the wanted id and more than [n]
    questions; and the id that question is scored under. *)
Definition reaches (cid : string) (n : Z) (c : collection) : bool :=
  String.eqb c.(collection_id) cid
  && (n <? Z.of_nat (List.length (questions_of c))).

Definition target_question (cs : list collection) (cid : string) (n : Z)
  : option question :=
  match find (reaches cid n) cs with
  | Some c => nth_error (questions_of c) (Z.to_nat n)
  | None => None
  end.

Definition resolved_id (question_files : Dict.t page_data) (answer_key : string)
  : option string :=
  let parts := segments answer_key in
  if (List.length parts <? 3)%nat then None
  else
    match Py.int (nth 2 parts ""), Dict.get question_files (nth 0 parts "") with
    | Ok n, Some page =>
        if 0 <=? n then
          option_map
            (fun q => field_or q.(question_id) (fallback_id (nth 1 parts "") n))
            (target_question (collections_of page) (nth 1 parts "") n)
        else None
    | _, _ => None
    end.

(** The indicator pass as a loop of assignments: the key and the value that
    an answer record assigns, if it resolves. *)
Definition indicator_key (question_files : Dict.t page_data)
    (item : string * answer_data) : string :=
  field_or (resolved_id question_files (fst item)) "".

Definition indicator_value (question_files : Dict.t page_data)
    (item : string * answer_data) : option Z :=
  match resolved_id question_files (fst item) with
  | Some _ => Some (option_id_to_grade (snd item).(option_id))
  | None => None
  end.

(** A question that the criterion pass finds in the indicator map: it has a
    non-empty [question_id] and that id is a key of the map. *)
Definition counted (indicator : Dict.t Z) (q : question) : bool :=
  has_id q && Dict.mem indicator (id_of q).

(** The keys of the map that [get_progress_data] returns: the page keys,
    and "overall" behind them unless it is a page key. *)
Definition progress_keys (question_files : Dict.t page_data) : list string :=
  if Dict.mem question_files "overall" then Dict.keys question_files
  else Dict.keys question_files ++ ["overall"].

(** Collections none of whose ids is a prefix of the id of another one. *)
Definition prefix_free (cs : list collection) : Prop :=
  forall c1 c2, In c1 cs -> In c2 cs ->
                String.prefix c1.(collection_id) c2.(collection_id) = true ->
                c1 = c2.

(** A catalog whose page keys and collection ids have no underscore and in
    which no collection id of a page is a prefix of another one. *)
Definition plain_ids (question_files : Dict.t page_data) : Prop :=
  forall page_key page,
    In (page_key, page) question_files ->
    free_of "_" page_key = true
    /\ (forall c, In c (collections_of page) ->
                  free_of "_" c.(collection_id) = true)
    /\ prefix_free (collections_of page).

(** A key as [display_question] writes it for a question of the catalog. *)
Definition written_key (question_files : Dict.t page_data) (k : string) : Prop :=
  exists page_key page col question_key,
    k = answer_storage_key page_key col.(collection_id) question_key
    /\ Dict.get question_files page_key = Some page
    /\ In col (collections_of page)
    /\ 0 <= question_key < Z.of_nat (List.length (questions_of col)).

(* ===================================================================== *)
(** * Presentation layer                                                   *)
(* ===================================================================== *)

(** The functions below the class. Calls that only render ([st.write],
    [st.header], [st.progress], ...) are not modelled beyond the keys they
    read, which may be missing. What the user did arrives as arguments: the
    value of [st.radio], the buttons that were pressed. [st.rerun()] ends
    the run of the script and is an outcome of its own. *)

(** ** initialize_session_state *)

(** [st.session_state] with the three entries the application uses; [None]
    is a missing entry. *)
Record session_state : Type := {
  current_question : option (Dict.t Z);
  answers : option (Dict.t answer_data);
  current_page : option (option string)
}.

(** Lines 171-173, for the three entries of [defaults] in their order. *)
Definition initialize_session_state (s : session_state) : session_state :=
  let s1 :=
    match s.(current_question) with
    | Some _ => s
    | None => {| current_question := Some [];
                 answers := s.(answers);
                 current_page := s.(current_page) |}
    end in
  let s2 :=
    match s1.(answers) with
    | Some _ => s1
    | None => {| current_question := s1.(current_question);
                 answers := Some [];
                 current_page := s1.(current_page) |}
    end in
  match s2.(current_page) with
  | Some _ => s2
  | None => {| current_question := s2.(current_question);
               answers := s2.(answers);
               current_page := Some None |}
  end.

(** ** display_question *)

(** A question as [display_question] reads it: the keys of the catalog
    entry beside [question_id]. *)
Record displayed_question : Type := {
  the_question : question;
  question_text : option string;
  answer_options : option (list answer_data)
}.

(** Line 196: an option is offered when its text is not blank. *)
Definition offered (o : answer_data) : bool :=
  negb (String.eqb (Py.strip o.(option_text)) "").

(** Line 197. *)
Definition display_text (o : answer_data) : string :=
  ("(" ++ o.(option_id) ++ ") -- " ++ o.(option_text))%string.

(** Lines 192-199: the loop that builds [display_options] and
    [option_mapping]. *)
Definition option_step (state : list string * Dict.t answer_data) (o : answer_data)
  : list string * Dict.t answer_data :=
  let (display_options, option_mapping) := state in
  if offered o
  then (display_options ++ [display_text o],
        Dict.set option_mapping (display_text o) o)
  else state.

Definition option_table (options : list answer_data)
  : list string * Dict.t answer_data :=
  fold_left option_step options ([], []).

(** Lines 175-219. [selected] is what [st.radio] returns; the result is the
    dict [st.session_state.answers] after the call. *)
Definition display_question (q : displayed_question) (question_key : Z)
    (page_key cid : string) (selected : option string)
    (session_answers : Dict.t answer_data) : result (Dict.t answer_data) :=
  (_ <- field q.(question_text) ;;
   _ <- field q.(the_question).(question_id) ;;
   match field_or q.(answer_options) [] with
   | [] => Ok session_answers
   | _ :: _ =>
       let (display_options, option_mapping) :=
         option_table (field_or q.(answer_options) []) in
       match display_options with
       | [] => Ok session_answers
       | _ :: _ =>
           let key := answer_storage_key page_key cid question_key in
           match selected with
           | Some s =>
               if negb (String.eqb s "") then
                 o <- Dict.getitem option_mapping s ;;
                 Ok (Dict.set session_answers key o)
               else Ok session_answers
           | None => Ok session_answers
           end
       end
   end)%result.

(** ** display_collection *)

(** A collection as [display_collection] reads it. *)
Record displayed_collection : Type := {
  shown_id : string;
  collection_title : option string;
  collection_description : option string;
  shown_questions : option (list displayed_question)
}.

(** The same catalog entry as the processor reads it. *)
Definition as_collection (c : displayed_collection) : collection :=
  {| collection_id := c.(shown_id);
     questions := option_map (map the_question) c.(shown_questions) |}.

(** The buttons pressed and the radio value of one run. *)
Record user_input : Type := {
  previous_pressed : bool;
  next_pressed : bool;
  save_pressed : bool;
  radio_value : option string
}.

(** How a run of a page function ends. *)
Inductive run_end : Type :=
| Completed
| Rerun
| Raised (e : exn).

(** The two dicts of the session that the page functions use. *)
Record session : Type := {
  pointers : Dict.t Z;
  recorded : Dict.t answer_data
}.

(** Line 235. *)
Definition collection_key (page_key cid : string) : string :=
  (page_key ++ "_" ++ cid)%string.

(** Lines 221-270. *)
Definition display_collection (c : displayed_collection) (page_key : string)
    (input : user_input) (s : session) : run_end * session :=
  match c.(collection_title), c.(collection_description), c.(shown_questions) with
  | Some _, Some _, Some questions =>
      let total_questions := Z.of_nat (List.length questions) in
      if total_questions =? 0 then (Completed, s)
      else
        let key := collection_key page_key c.(shown_id) in
        let pointers1 :=
          if Dict.mem s.(pointers) key then s.(pointers)
          else Dict.set s.(pointers) key 0 in
        let current_q_index := Dict.get_default pointers1 key 0 in
        match Py.index questions current_q_index with
        | Raise e => (Raised e, {| pointers := pointers1; recorded := s.(recorded) |})
        | Ok q =>
            match display_question q current_q_index page_key c.(shown_id)
                                   input.(radio_value) s.(recorded) with
            | Raise e =>
                (Raised e, {| pointers := pointers1; recorded := s.(recorded) |})
            | Ok recorded1 =>
                if (0 <? current_q_index) && input.(previous_pressed) then
                  (Rerun, {| pointers := Dict.set pointers1 key (current_q_index - 1);
                             recorded := recorded1 |})
                else if (current_q_index <? total_questions - 1)
                        && input.(next_pressed) then
                  (Rerun, {| pointers := Dict.set pointers1 key (current_q_index + 1);
                             recorded := recorded1 |})
                else
                  (Completed, {| pointers := pointers1; recorded := recorded1 |})
            end
        end
  | _, _, _ => (Raised KeyError, s)
  end.

(** ** _display_reset_section *)


(** ** The detailed answers of summary_page *)





(** Line 242: the fraction that [display_collection] passes to
    [st.progress]. *)
Definition shown_progress (current_q_index total_questions : Z) : Q :=
  Py.truediv (inject_Z (current_q_index + 1)) (inject_Z total_questions).

(** The pointer of a collection, when it has one, is a position of its
    question list. *)
Definition pointer_in_range (c : displayed_collection) (page_key : string)
    (s : session) : Prop :=
  forall i, Dict.get s.(pointers) (collection_key page_key c.(shown_id)) = Some i ->
            0 <= i < Z.of_nat (List.length (field_or c.(shown_questions) [])).

(** Sample data of the presentation layer. *)
Definition often : answer_data := {| option_id := "B"; option_text := "often" |}.
Definition blank : answer_data := {| option_id := "C"; option_text := "  " |}.

Definition first_question : displayed_question :=
  {| the_question := sample_question "I1";
     question_text := Some "How often?";
     answer_options := Some [often; blank] |}.

Definition second_question : displayed_question :=
  {| the_question := sample_question "I2";
     question_text := Some "How well?";
     answer_options := Some [often] |}.

Definition first_collection : displayed_collection :=
  {| shown_id := "C1";
     collection_title := Some "Care";
     collection_description := Some "Questions on care";
     shown_questions := Some [first_question; second_question] |}.

Definition sample_answers : Dict.t answer_data :=
  [("Q1_C1_0", chosen "B"); ("Q1_C1_1", chosen "D")].

Definition sample_scores : ScoreData :=
  {| indicator_scores := [("I1", 1); ("I2", 3)];
     criterion_scores := [("C1", 2%Q)];
     value_scores := [("Quality", 2%Q)] |}.

(** A key with at least three segments whose third segment [int] rejects. *)
Definition malformed (answer_key : string) : bool :=
  (3 <=? List.length (segments answer_key))%nat
  && match Py.int (nth 2 (segments answer_key) "") with
     | Ok _ => false
     | Raise _ => true
     end.

(** A literal of [n] digits, and the first of the four separators that
    [str.strip] removes and [int] does not skip. *)
Fixpoint ones (n : nat) : string :=
  match n with
  | O => EmptyString
  | S m => String "1" (ones m)
  end.

Definition file_separator : ascii := ascii_of_nat 28.

(* ===================================================================== *)
(** * The builtins on examples                                             *)
(* ===================================================================== *)

Example split_three : Py.split "_" "Q1_C1_0" = ["Q1"; "C1"; "0"].
Proof. reflexivity. Qed.

Example split_empty_segments : Py.split "_" "a__b_" = ["a"; ""; "b"; ""].
Proof. reflexivity. Qed.

Example int_examples :
  Py.int "12" = Ok 12 /\ Py.int " -7 " = Ok (-7) /\ Py.int "+007" = Ok 7 /\
  Py.int "x" = Raise ValueError /\ Py.int "" = Raise ValueError /\
  Py.int "1_000" = Ok 1000 /\ Py.int "1__0" = Raise ValueError /\
  Py.int "- 1" = Raise ValueError.
Proof. repeat split; reflexivity. Qed.

(** Blanks around a literal: a tab and a form feed are skipped, a file
    separator is not, although [str.strip] removes it. *)
Example int_blanks :
  Py.int (String (ascii_of_nat 9) "1") = Ok 1
  /\ Py.int (String "1" (String (ascii_of_nat 12) "")) = Ok 1
  /\ Py.int (String file_separator "1") = Raise ValueError
  /\ Py.int (String "1" (String file_separator "")) = Raise ValueError
  /\ Py.strip (String file_separator "1") = "1".
Proof. repeat split; reflexivity. Qed.

(** The limit on the number of digits: 4300 digits are read, one more
    raises, with or without a sign, and leading zeros count. *)
Example int_digit_limit :
  (exists n, Py.int (ones 4300) = Ok n)
  /\ Py.int (ones 4301) = Raise ValueError
  /\ Py.int (String "-" (ones 4301)) = Raise ValueError
  /\ Py.int (String "0" (ones 4300)) = Raise ValueError.
Proof.
  split; [eexists; vm_compute; reflexivity|].
  repeat split; vm_compute; reflexivity.
Qed.

Example str_examples : Py.str 0 = "0" /\ Py.str 12 = "12" /\ Py.str (-3) = "-3".
Proof. repeat split; reflexivity. Qed.

Example round_examples :
  Py.round (1 # 2) = 0 /\ Py.round (3 # 2) = 2 /\ Py.round (5 # 2) = 2 /\
  Py.round (7 # 2) = 4 /\ Py.round (26 # 10) = 3 /\ Py.round (-1 # 2) = 0.
Proof. repeat split; reflexivity. Qed.

Example end_to_end :
  returns calculate_all_scores
    (init [("Q1", sample_page "Quality"
                    [sample_collection "C1" [sample_question "I1"; sample_question "I2"]])]
          [("Q1_C1_0", chosen "B"); ("Q1_C1_1", chosen "D")])
  = Ok {| indicator_scores := [("I1", 1); ("I2", 3)];
          criterion_scores := [("C1", 2%Q)];
          value_scores := [("Quality", 2%Q)] |}
  /\ grade_to_letter 2 = Ok "C".
Proof. split; reflexivity. Qed.

Example progress_example :
  returns get_progress_data
    (init [("Q1", sample_page "Quality"
                    [sample_collection "C1" [unnamed_question; unnamed_question; unnamed_question];
                     sample_collection "C2" [unnamed_question; unnamed_question; unnamed_question]])]
          [("Q1_C1_0", chosen "B"); ("Q1_C1_1", chosen "A")])
  = Ok [("Q1", {| total := 6; answered := 2; progress := (1 # 3)%Q |});
        ("overall", {| total := 6; answered := 2; progress := (1 # 3)%Q |})].
Proof. reflexivity. Qed.

(* ===================================================================== *)
(** * Facts about dictionaries                                             *)
(* ===================================================================== *)

Section DictFacts.
Context {V : Type}.
Implicit Types (d : Dict.t V) (k : string) (v : V).

Lemma get_set_same d k v : Dict.get (Dict.set d k v) k = Some v.
Proof.
  induction d as [|[k' v'] d IH]; simpl.
  - now rewrite String.eqb_refl.
  - destruct (String.eqb k k') eqn:E; simpl; rewrite E; auto.
Qed.

Lemma get_set_other d k k' v :
  k <> k' -> Dict.get (Dict.set d k v) k' = Dict.get d k'.
Proof.
  intros Hne. induction d as [|[k0 v0] d IH]; simpl.
  - destruct (String.eqb_spec k' k); congruence.
  - destruct (String.eqb_spec k k0) as [->|Hk]; simpl.
    + destruct (String.eqb_spec k' k0); congruence.
    + destruct (String.eqb_spec k' k0); auto.
Qed.

Lemma get_none_iff d k : Dict.get d k = None <-> ~ In k (Dict.keys d).
Proof.
  induction d as [|[k' v'] d IH]; simpl.
  - tauto.
  - destruct (String.eqb_spec k k') as [->|Hk].
    + split; [discriminate | intros H; exfalso; apply H; auto].
    + rewrite IH. split; [intros H [E|I]; congruence | tauto].
Qed.

Lemma get_some_in d k v : Dict.get d k = Some v -> In (k, v) d.
Proof.
  induction d as [|[k' v'] d IH]; simpl; [discriminate|].
  destruct (String.eqb_spec k k') as [->|Hk].
  - intros [= ->]. now left.
  - intros H. right. auto.
Qed.

Lemma in_get d k v : Dict.wf d -> In (k, v) d -> Dict.get d k = Some v.
Proof.
  unfold Dict.wf. induction d as [|[k' v'] d IH]; simpl; [tauto|].
  intros Hwf [E|I].
  - inversion E; subst. now rewrite String.eqb_refl.
  - inversion Hwf; subst. destruct (String.eqb_spec k k') as [->|Hk]; auto.
    exfalso. apply H1. change k' with (fst (k', v)). now apply in_map.
Qed.

Lemma keys_set d k v :
  Dict.keys (Dict.set d k v)
  = if Dict.mem d k then Dict.keys d else Dict.keys d ++ [k].
Proof.
  unfold Dict.mem. induction d as [|[k' v'] d IH]; simpl; [reflexivity|].
  destruct (String.eqb_spec k k') as [->|Hk]; simpl; [reflexivity|].
  rewrite IH. now destruct (Dict.get d k).
Qed.

Lemma wf_set d k v : Dict.wf d -> Dict.wf (Dict.set d k v).
Proof.
  unfold Dict.wf. intros Hwf. rewrite keys_set. unfold Dict.mem.
  destruct (Dict.get d k) eqn:E; [assumption|].
  apply get_none_iff in E.
  apply NoDup_app; [assumption | repeat constructor; simpl; tauto |].
  intros x Hx [<-|[]]. contradiction.
Qed.

Lemma values_set (P : V -> Prop) d k v :
  Forall P (Dict.values d) -> P v -> Forall P (Dict.values (Dict.set d k v)).
Proof.
  unfold Dict.values. intros Hd Hv.
  induction d as [|[k' v'] d IH]; simpl.
  - now repeat constructor.
  - inversion Hd; subst. destruct (String.eqb k k'); simpl; constructor; auto.
Qed.

Lemma get_values (P : V -> Prop) d k v :
  Forall P (Dict.values d) -> Dict.get d k = Some v -> P v.
Proof.
  intros Hd Hg. apply get_some_in in Hg.
  rewrite Forall_forall in Hd. apply Hd.
  unfold Dict.values. change v with (snd (k, v)). now apply in_map.
Qed.

End DictFacts.

Lemma fold_left_flat_map {A B S : Type} (f : S -> B -> S) (g : A -> list B)
    (l : list A) (s : S) :
  fold_left (fun acc a => fold_left f (g a) acc) l s
  = fold_left f (flat_map g l) s.
Proof.
  revert s. induction l as [|a l IH]; intros s; simpl; [reflexivity|].
  now rewrite fold_left_app, IH.
Qed.

Lemma for_each_app {A S : Type} (body : S -> A -> result S) (l1 l2 : list A) (s : S) :
  for_each body (l1 ++ l2) s = rbind (for_each body l1 s) (for_each body l2).
Proof.
  revert s. induction l1 as [|a l1 IH]; intros s; simpl; [reflexivity|].
  destruct (body s a); simpl; auto.
Qed.

(* ===================================================================== *)
(** * Grade codec                                                          *)
(* ===================================================================== *)

Lemma eqb_long_short a b r x :
  String.eqb (String a (String b r)) (String x EmptyString) = false.
Proof. simpl. now destruct (Ascii.eqb a x). Qed.

Lemma grade_get_long a b r : Dict.get GRADE_MAPPING (String a (String b r)) = None.
Proof. unfold GRADE_MAPPING, Dict.get. now rewrite !eqb_long_short. Qed.

Lemma letter_find_long a b r : letterToValue (String a (String b r)) = 0.
Proof.
  unfold letterToValue, letter_table, find, fst, snd. now rewrite !eqb_long_short.
Qed.

Lemma option_id_to_grade_range s : 0 <= option_id_to_grade s <= 6.
Proof.
  unfold option_id_to_grade, Dict.get_default.
  destruct (Dict.get GRADE_MAPPING (Py.upper s)) as [v|] eqn:E; [|lia].
  apply (get_values (fun v => 0 <= v <= 6) _ _ _) in E; [exact E|].
  unfold GRADE_MAPPING, Dict.values; simpl. repeat constructor; lia.
Qed.

(** C6. For every string, [option_id_to_grade] is the case-insensitive
    table A..G -> 0..6 of the specification, with 0 for every string that is
    not in the table; it is a total function with values in 0..6, and gives
    0 for "a" and "A", 6 for "G", 0 for "Z". *)
Theorem option_id_to_grade_spec :
  forall s : string,
    option_id_to_grade s = letterToValue s
    /\ option_id_to_grade s = Dict.get_default GRADE_MAPPING (Py.upper s) 0
    /\ 0 <= option_id_to_grade s <= 6
    /\ option_id_to_grade "a" = 0 /\ option_id_to_grade "A" = 0
    /\ option_id_to_grade "G" = 6 /\ option_id_to_grade "Z" = 0.
Proof.
  intros s. split; [|split; [reflexivity|split; [apply option_id_to_grade_range|]]].
  - destruct s as [|c [|c' r]].
    + reflexivity.
    + destruct c as [[] [] [] [] [] [] [] []]; reflexivity.
    + unfold option_id_to_grade, Dict.get_default. cbn [Py.upper].
      now rewrite grade_get_long, letter_find_long.
  - repeat split; reflexivity.
Qed.

Lemma round_cases (x : Q) :
  ((x - inject_Z (Qfloor x) < 1 # 2)%Q /\ Py.round x = Qfloor x)
  \/ ((1 # 2 < x - inject_Z (Qfloor x))%Q /\ Py.round x = Qfloor x + 1)
  \/ ((x - inject_Z (Qfloor x) == 1 # 2)%Q
      /\ Py.round x = (if Z.even (Qfloor x) then Qfloor x else Qfloor x + 1)).
Proof.
  unfold Py.round.
  destruct (x - inject_Z (Qfloor x) ?= 1 # 2)%Q eqn:E.
  - right; right. split; [now apply Qeq_alt | reflexivity].
  - left. split; [now apply Qlt_alt | reflexivity].
  - right; left. split; [now apply Qgt_alt | reflexivity].
Qed.

Lemma floor_bounds (x : Q) :
  (inject_Z (Qfloor x) <= x)%Q /\ (x < inject_Z (Qfloor x) + 1)%Q.
Proof.
  split; [apply Qfloor_le|].
  pose proof (Qlt_floor x) as H. rewrite inject_Z_plus in H. exact H.
Qed.

Lemma round_nearest (x : Q) :
  (Qabs (x - inject_Z (Py.round x)) <= 1 # 2)%Q
  /\ ((Qabs (x - inject_Z (Py.round x)) == 1 # 2)%Q -> Z.even (Py.round x) = true).
Proof.
  destruct (floor_bounds x) as [Hlo Hhi].
  destruct (round_cases x) as [[Hr ->]|[[Hr ->]|[Hr ->]]].
  - hide_floor x. split.
    + apply Qabs_Qle_condition. split; lra.
    + intros Habs. rewrite Qabs_pos in Habs by lra. lra.
  - rewrite inject_Z_plus. change (inject_Z 1) with 1%Q. hide_floor x. split.
    + apply Qabs_Qle_condition. split; lra.
    + intros Habs. rewrite Qabs_neg in Habs by lra. lra.
  - destruct (Z.even (Qfloor x)) eqn:Ev.
    + split; [|auto]. hide_floor x. apply Qabs_Qle_condition. split; lra.
    + rewrite inject_Z_plus. change (inject_Z 1) with 1%Q. split.
      * hide_floor x. apply Qabs_Qle_condition. split; lra.
      * intros _. rewrite Z.even_add, Ev. reflexivity.
Qed.

Lemma round_in_range (x : Q) : (0 <= x <= 6)%Q -> 0 <= Py.round x <= 6.
Proof.
  intros [H0 H6].
  destruct (floor_bounds x) as [Hlo Hhi].
  assert (Hf0 : 0 <= Qfloor x).
  { change 0 with (Qfloor 0). now apply Qfloor_resp_le. }
  assert (Hf6 : Qfloor x <= 6).
  { change 6 with (Qfloor 6). now apply Qfloor_resp_le. }
  assert (Hup : (1 # 2 <= x - inject_Z (Qfloor x))%Q -> Qfloor x + 1 <= 6).
  { intros Hr. assert (Hlt : (inject_Z (Qfloor x) < inject_Z 6)%Q).
    { change (inject_Z 6) with 6%Q. hide_floor x. lra. }
    rewrite <- Zlt_Qlt in Hlt. lia. }
  destruct (round_cases x) as [[Hr ->]|[[Hr ->]|[Hr ->]]].
  - lia.
  - split; [lia|]. apply Hup. hide_floor x. lra.
  - destruct (Z.even (Qfloor x)); [lia|]. split; [lia|]. apply Hup.
    hide_floor x. lra.
Qed.

Lemma index_letter (n : Z) :
  0 <= n <= 6 -> Py.index LETTER_MAPPING n = Ok (letter_at n).
Proof.
  intros H.
  assert (C : n = 0 \/ n = 1 \/ n = 2 \/ n = 3 \/ n = 4 \/ n = 5 \/ n = 6) by lia.
  destruct C as [->|[->|[->|[->|[->|[->| ->]]]]]]; reflexivity.
Qed.

Lemma in_range_test (g : Q) :
  Qle_bool 0 g && Qle_bool g 6 = true <-> (0 <= g <= 6)%Q.
Proof. now rewrite andb_true_iff, !Qle_bool_iff. Qed.

(** C5, as the code has it. For every grade [g] with [0 <= g <= 6],
    [grade_to_letter g] returns the letter of A..G at the position that is
    the integer nearest to [g], a tie going to the even neighbour; for every
    [g] outside [0, 6] it returns "A". So 0 gives "A", 6 gives "G", 3.5
    gives "E" and 7 gives "A". *)
Theorem grade_to_letter_spec :
  (forall g : Q, (0 <= g <= 6)%Q ->
     exists n : Z,
       0 <= n <= 6
       /\ (Qabs (g - inject_Z n) <= 1 # 2)%Q
       /\ ((Qabs (g - inject_Z n) == 1 # 2)%Q -> Z.even n = true)
       /\ grade_to_letter g = Ok (letter_at n))
  /\ (forall g : Q, ~ (0 <= g <= 6)%Q -> grade_to_letter g = Ok "A")
  /\ grade_to_letter 0 = Ok "A"
  /\ grade_to_letter 6 = Ok "G"
  /\ grade_to_letter (7 # 2) = Ok "E"
  /\ grade_to_letter 7 = Ok "A".
Proof.
  split; [|split; [|repeat split; reflexivity]].
  - intros g Hg. exists (Py.round g).
    destruct (round_nearest g) as [Hn He].
    pose proof (round_in_range g Hg) as Hr.
    repeat split; try tauto; try lia.
    unfold grade_to_letter. rewrite (proj2 (in_range_test g) Hg).
    now apply index_letter.
  - intros g Hg. unfold grade_to_letter.
    destruct (Qle_bool 0 g && Qle_bool g 6) eqn:E; [|reflexivity].
    apply in_range_test in E. contradiction.
Qed.

(** The code at the grade 5/2, in range and a tie: the even neighbour 2. *)
Lemma grade_to_letter_spec_witness :
  exists n : Z,
    0 <= n <= 6
    /\ (Qabs ((5 # 2) - inject_Z n) <= 1 # 2)%Q
    /\ ((Qabs ((5 # 2) - inject_Z n) == 1 # 2)%Q -> Z.even n = true)
    /\ grade_to_letter (5 # 2) = Ok (letter_at n).
Proof.
  apply (proj1 grade_to_letter_spec (5 # 2)%Q).
  split; discriminate.
Defined.

(** C5 as stated fails at 3.5: position 4 of the alphabet is "E", not "D". *)
Lemma grade_to_letter_half_counterexample :
  (0 <= 7 # 2 <= 6)%Q
  /\ grade_to_letter (7 # 2) = Ok "E"
  /\ grade_to_letter (7 # 2) <> Ok "D".
Proof.
  split; [split; discriminate|]. split; [reflexivity|discriminate].
Qed.

(* ===================================================================== *)
(** * The public methods                                                   *)
(* ===================================================================== *)

(** ** Running the two public methods *)

Lemma calculate_all_scores_run (h : heap) :
  calculate_all_scores h =
  match answers_object h with
  | [] => (Ok empty_scores, h)
  | _ :: _ =>
      match _calculate_indicator_scores (self_question_files h) (answers_object h) with
      | Ok ind =>
          let sd := scores_of (self_question_files h) ind in
          (Ok sd,
           call (self_question_files h)
                (Some (ind, criterion_scores sd, value_scores sd))
                (answers_object h))
      | Raise e => (Raise e, h)
      end
  end.
Proof.
  destruct h as [qf cache answers].
  cbv beta iota zeta delta
    [calculate_all_scores mbind read_answers read_question_files lift
     write_score_cache mret scores_of call self_question_files answers_object
     self_score_cache criterion_scores value_scores indicator_scores].
  destruct answers as [|a l]; [reflexivity|].
  destruct (_calculate_indicator_scores qf (a :: l)); reflexivity.
Qed.

Lemma calculate_all_scores_returns (h : heap) :
  returns calculate_all_scores h =
  match answers_object h with
  | [] => Ok empty_scores
  | _ :: _ =>
      rbind (_calculate_indicator_scores (self_question_files h) (answers_object h))
            (fun ind => Ok (scores_of (self_question_files h) ind))
  end.
Proof.
  unfold returns. rewrite calculate_all_scores_run.
  destruct (answers_object h); [reflexivity|].
  destruct (_calculate_indicator_scores _ _); reflexivity.
Qed.

Lemma get_progress_data_run (h : heap) :
  get_progress_data h =
  (rbind (for_each (progress_page_step (answers_object h)) (self_question_files h)
                   ([], 0, 0))
         (fun state =>
            Ok (Dict.set (fst (fst state)) "overall"
                         {| total := snd (fst state);
                            answered := snd state;
                            progress := ratio (snd state) (snd (fst state)) |})),
   h).
Proof.
  destruct h as [qf cache answers].
  cbv beta iota zeta delta
    [get_progress_data mbind read_answers read_question_files lift mret
     self_question_files answers_object].
  destruct (for_each _ _ _) as [[[pd ta] aa]|e]; reflexivity.
Qed.

(** C8. Calling [calculate_all_scores] a second time on the heap the first
    call left, with the answers map unchanged, gives the result of the
    first call and leaves the heap as the first call left it; and the
    content of the score cache has no influence on the result. *)
Theorem calculate_all_scores_idempotent :
  forall h : heap,
    returns calculate_all_scores (heap_after calculate_all_scores h)
    = returns calculate_all_scores h
    /\ heap_after calculate_all_scores (heap_after calculate_all_scores h)
       = heap_after calculate_all_scores h
    /\ forall cache,
         returns calculate_all_scores
           (call (self_question_files h) cache (answers_object h))
         = returns calculate_all_scores h.
Proof.
  intros h. split; [|split].
  - rewrite !calculate_all_scores_returns. unfold heap_after.
    rewrite calculate_all_scores_run.
    destruct (answers_object h) eqn:Ea; simpl; [now rewrite Ea|].
    destruct (_calculate_indicator_scores (self_question_files h) (p :: t)) eqn:Ei;
      simpl; rewrite ?Ea, Ei; reflexivity.
  - destruct h as [qf cache answers]. unfold heap_after.
    rewrite (calculate_all_scores_run (Build_heap qf cache answers)).
    cbn [answers_object self_question_files].
    destruct answers as [|x l]; cbn [snd]; [reflexivity|].
    destruct (_calculate_indicator_scores qf (x :: l)) eqn:Ei; cbn [snd];
      rewrite calculate_all_scores_run; unfold call;
      cbn [answers_object self_question_files]; rewrite Ei; reflexivity.
  - intros cache. now rewrite !calculate_all_scores_returns.
Qed.

(** C9. Neither [calculate_all_scores] nor [get_progress_data] changes the
    answers map it is given or the catalog held by the processor. *)
Theorem inputs_unchanged :
  forall h : heap,
    answers_object (heap_after calculate_all_scores h) = answers_object h
    /\ self_question_files (heap_after calculate_all_scores h) = self_question_files h
    /\ answers_object (heap_after get_progress_data h) = answers_object h
    /\ self_question_files (heap_after get_progress_data h) = self_question_files h.
Proof.
  intros h. unfold heap_after.
  rewrite calculate_all_scores_run, get_progress_data_run.
  destruct (answers_object h) eqn:Ea; simpl; auto.
  destruct (_calculate_indicator_scores _ _); simpl; auto.
Qed.

(* ===================================================================== *)
(** * Score ranges                                                         *)
(* ===================================================================== *)

(** ** Loop invariants *)

Lemma for_each_invariant {A S : Type} (P : S -> Prop) (body : S -> A -> result S)
    (l : list A) :
  (forall s x s', P s -> body s x = Ok s' -> P s') ->
  forall s s', P s -> for_each body l s = Ok s' -> P s'.
Proof.
  intros Hbody. induction l as [|x l IH]; intros s s' Hs; simpl.
  - intros [= <-]. exact Hs.
  - destruct (body s x) as [s1|e] eqn:E; simpl; [|discriminate].
    apply IH. eapply Hbody; eauto.
Qed.

Lemma fold_left_invariant {A S : Type} (P : S -> Prop) (f : S -> A -> S)
    (l : list A) :
  (forall s x, P s -> P (f s x)) -> forall s, P s -> P (fold_left f l s).
Proof.
  intros Hf. induction l as [|x l IH]; intros s Hs; simpl; auto.
Qed.

Lemma scan_collections_range cs cid n a ind ind' :
  Forall grade_range (Dict.values ind) ->
  scan_collections cs cid n a ind = Ok ind' ->
  Forall grade_range (Dict.values ind').
Proof.
  intros Hind. induction cs as [|c cs IH]; simpl.
  - now intros [= <-].
  - destruct (String.eqb (collection_id c) cid); [|exact IH].
    destruct (questions c) as [qs|]; simpl; [|discriminate].
    destruct (n <? Z.of_nat (List.length qs)); [|exact IH].
    destruct (Py.index qs n) as [q|e]; simpl; [|discriminate].
    intros [= <-]. apply values_set; [assumption|].
    apply option_id_to_grade_range.
Qed.

Lemma indicator_scores_range qf answers ind :
  _calculate_indicator_scores qf answers = Ok ind ->
  Forall grade_range (Dict.values ind).
Proof.
  unfold _calculate_indicator_scores. intros H.
  apply (for_each_invariant (fun d => Forall grade_range (Dict.values d))
           _ _) with (3 := H); [|constructor].
  intros s [k a] s' Hs. unfold indicator_step.
  destruct (List.length (Py.split "_" k) <? 3)%nat; [now intros [= <-]|].
  destruct (Py.int _) as [n|e]; simpl; [|discriminate].
  destruct (Dict.get qf _) as [page|]; [|now intros [= <-]].
  destruct (question_collections page) as [cs|]; simpl; [|discriminate].
  now apply scan_collections_range.
Qed.

Lemma question_scores_range ind qs :
  Forall grade_range (Dict.values ind) ->
  Forall grade_range (question_scores ind qs).
Proof.
  intros Hind. unfold question_scores.
  apply (fold_left_invariant (Forall grade_range)); [|constructor].
  intros scores q Hs.
  destruct (question_id q) as [qid|]; [|assumption].
  destruct (negb (String.eqb qid "")); [|assumption].
  destruct (Dict.get ind qid) as [v|] eqn:E; [|assumption].
  apply Forall_app. split; [assumption|].
  constructor; [|constructor]. eapply get_values; eauto.
Qed.

Lemma sum_int_sumZ (l : list Z) : Py.sum_int l = sumZ l.
Proof.
  unfold Py.sum_int.
  assert (G : forall a, fold_left Z.add l a = a + sumZ l).
  { induction l as [|x l IH]; intros a; simpl; [lia|]. rewrite IH. lia. }
  now rewrite G.
Qed.

Lemma sumZ_range (l : list Z) :
  Forall grade_range l -> 0 <= sumZ l <= 6 * Z.of_nat (List.length l).
Proof.
  induction 1 as [|x l Hx _ IH]; simpl List.length; simpl sumZ; [lia|].
  unfold grade_range in Hx. lia.
Qed.

Lemma truediv_range (a b : Q) :
  (0 < b)%Q -> (0 <= a)%Q -> (a <= 6 * b)%Q -> score_range (Py.truediv a b).
Proof.
  intros Hb Ha Hab. unfold score_range, Py.truediv. rewrite Qred_correct. split.
  - apply Qle_shift_div_l; [assumption|]. lra.
  - apply Qle_shift_div_r; assumption.
Qed.

Lemma length_pos {A : Type} (x : A) (l : list A) :
  (0 < inject_Z (Z.of_nat (List.length (x :: l))))%Q.
Proof.
  change 0%Q with (inject_Z 0). rewrite <- Zlt_Qlt. simpl List.length. lia.
Qed.

Lemma mean_int_range (l : list Z) :
  l <> [] -> Forall grade_range l -> score_range (mean_int l).
Proof.
  intros Hne Hl. destruct l as [|x l]; [congruence|].
  unfold mean_int. rewrite sum_int_sumZ.
  pose proof (sumZ_range _ Hl) as [H0 H6].
  apply truediv_range.
  - apply length_pos.
  - change 0%Q with (inject_Z 0). now rewrite <- Zle_Qle.
  - change 6%Q with (inject_Z 6). rewrite <- inject_Z_mult. now rewrite <- Zle_Qle.
Qed.

Lemma sum_float_range (l : list Q) :
  Forall score_range l ->
  (0 <= Py.sum_float l)%Q
  /\ (Py.sum_float l <= 6 * inject_Z (Z.of_nat (List.length l)))%Q.
Proof.
  unfold Py.sum_float. intros Hl.
  assert (G : forall a,
             (a <= fold_left Qplus l a)%Q
             /\ (fold_left Qplus l a <= a + 6 * inject_Z (Z.of_nat (List.length l)))%Q).
  { induction Hl as [|x l [Hx0 Hx6] _ IH]; intros a.
    - cbn [fold_left List.length Z.of_nat]. change (inject_Z 0) with 0%Q.
      split; lra.
    - destruct (IH (a + x)%Q) as [IH1 IH2].
      cbn [fold_left]. cbn [List.length].
      rewrite Nat2Z.inj_succ, <- Z.add_1_r, inject_Z_plus.
      change (inject_Z 1) with 1%Q.
      set (n := inject_Z (Z.of_nat (List.length l))) in *. clearbody n.
      set (r := fold_left Qplus l (a + x)%Q) in *. clearbody r.
      split; lra. }
  destruct (G (0 # 1)%Q) as [G1 G2]. split; [exact G1|].
  set (n := inject_Z (Z.of_nat (List.length l))) in *. clearbody n.
  set (r := fold_left Qplus l (0 # 1)%Q) in *. clearbody r. lra.
Qed.

Lemma mean_float_range (l : list Q) :
  l <> [] -> Forall score_range l -> score_range (mean_float l).
Proof.
  intros Hne Hl. destruct l as [|x l]; [congruence|].
  unfold mean_float. pose proof (sum_float_range _ Hl) as [H0 H6].
  apply truediv_range; [apply length_pos|assumption|assumption].
Qed.

Lemma criterion_scores_range qf ind :
  Forall grade_range (Dict.values ind) ->
  Forall score_range (Dict.values (_calculate_criterion_scores qf ind)).
Proof.
  intros Hind. unfold _calculate_criterion_scores.
  apply (fold_left_invariant (fun d => Forall score_range (Dict.values d)));
    [|constructor].
  intros crit item.
  apply (fold_left_invariant (fun d => Forall score_range (Dict.values d))).
  intros crit' c Hc. unfold criterion_step.
  pose proof (question_scores_range ind (field_or (questions c) []) Hind) as Hs.
  destruct (question_scores ind (field_or (questions c) [])) as [|s l] eqn:E;
    [assumption|].
  apply values_set; [assumption|]. apply mean_int_range; [discriminate|assumption].
Qed.

Lemma collection_scores_range crit cs :
  Forall score_range (Dict.values crit) ->
  Forall score_range (collection_scores crit cs).
Proof.
  intros Hcrit. unfold collection_scores.
  apply (fold_left_invariant (Forall score_range)); [|constructor].
  intros scores c Hs.
  destruct (Dict.get crit (collection_id c)) as [v|] eqn:E; [|assumption].
  apply Forall_app. split; [assumption|].
  constructor; [|constructor]. eapply get_values; eauto.
Qed.

Lemma value_scores_range qf crit :
  Forall score_range (Dict.values crit) ->
  Forall score_range (Dict.values (_calculate_value_scores qf crit)).
Proof.
  intros Hcrit. unfold _calculate_value_scores.
  apply (fold_left_invariant (fun d => Forall score_range (Dict.values d)));
    [|constructor].
  intros val [k page] Hval. unfold value_step.
  pose proof (collection_scores_range crit
                (field_or (question_collections page) []) Hcrit) as Hs.
  destruct (collection_scores crit _) as [|s l] eqn:E; [assumption|].
  apply values_set; [assumption|]. apply mean_float_range; [discriminate|assumption].
Qed.

(** C7. Every value of the indicator map that [calculate_all_scores]
    returns is an integer between 0 and 6, and every value of the criterion
    map and of the value map lies in the interval [0, 6]. *)
Theorem scores_in_range :
  forall (h : heap) (sd : ScoreData),
    returns calculate_all_scores h = Ok sd ->
    Forall (fun v : Z => 0 <= v <= 6) (Dict.values (indicator_scores sd))
    /\ Forall (fun v : Q => (0 <= v <= 6)%Q) (Dict.values (criterion_scores sd))
    /\ Forall (fun v : Q => (0 <= v <= 6)%Q) (Dict.values (value_scores sd)).
Proof.
  intros h sd. rewrite calculate_all_scores_returns.
  destruct (answers_object h) as [|a l].
  - intros [= <-]. simpl. repeat split; constructor.
  - destruct (_calculate_indicator_scores _ _) as [ind|e] eqn:E; simpl;
      [|discriminate].
    intros [= <-]. simpl.
    pose proof (indicator_scores_range _ _ _ E) as Hi.
    pose proof (criterion_scores_range (self_question_files h) _ Hi) as Hc.
    pose proof (value_scores_range (self_question_files h) _ Hc) as Hv.
    auto.
Qed.

Lemma scores_in_range_witness :
  Forall (fun v : Z => 0 <= v <= 6) (Dict.values [("I1", 1); ("I2", 3)])
  /\ Forall (fun v : Q => (0 <= v <= 6)%Q) (Dict.values [("C1", 2%Q)])
  /\ Forall (fun v : Q => (0 <= v <= 6)%Q) (Dict.values [("Quality", 2%Q)]).
Proof.
  apply (scores_in_range
           (init [("Q1", sample_page "Quality"
                           [sample_collection "C1"
                              [sample_question "I1"; sample_question "I2"]])]
                 [("Q1_C1_0", chosen "B"); ("Q1_C1_1", chosen "D")])
           {| indicator_scores := [("I1", 1); ("I2", 3)];
              criterion_scores := [("C1", 2%Q)];
              value_scores := [("Quality", 2%Q)] |}).
  reflexivity.
Defined.

(* ===================================================================== *)
(** * The indicator pass on well-formed answer keys *)
(* ===================================================================== *)

Lemma conformant_get qf p page :
  conformant qf = true -> Dict.get qf p = Some page ->
  exists cs, question_collections page = Some cs
             /\ forallb has_questions cs = true.
Proof.
  unfold conformant. intros Hc Hg. apply get_some_in in Hg.
  rewrite forallb_forall in Hc. specialize (Hc _ Hg). simpl in Hc.
  unfold conformant_page in Hc.
  destruct (question_collections page) as [cs|]; [|discriminate].
  exists cs. split; [reflexivity|exact Hc].
Qed.

Lemma index_in_bounds {A : Type} (l : list A) (n : Z) :
  0 <= n < Z.of_nat (List.length l) -> exists a, Py.index l n = Ok a.
Proof.
  intros [H0 Hn]. unfold Py.index.
  destruct (n <? 0) eqn:E; [lia|].
  replace ((0 <=? n) && (n <? Z.of_nat (List.length l))) with true
    by (symmetry; apply andb_true_iff; split; lia).
  destruct (nth_error l (Z.to_nat n)) as [a|] eqn:En; [now exists a|].
  apply nth_error_None in En. lia.
Qed.

Lemma scan_collections_total cs cid n a ind :
  forallb has_questions cs = true -> 0 <= n ->
  exists ind', scan_collections cs cid n a ind = Ok ind'.
Proof.
  intros Hcs Hn. induction cs as [|c cs IH]; simpl.
  - now exists ind.
  - simpl in Hcs. apply andb_true_iff in Hcs as [Hc Hcs].
    destruct (String.eqb (collection_id c) cid); [|auto].
    unfold has_questions in Hc.
    destruct (questions c) as [qs|]; [|discriminate]. simpl.
    destruct (n <? Z.of_nat (List.length qs)) eqn:E; [|auto].
    destruct (index_in_bounds qs n) as [q ->]; [lia|]. simpl. eauto.
Qed.

Lemma scan_collections_skip cs cid n a ind :
  forallb has_questions cs = true ->
  existsb (fun c => String.eqb c.(collection_id) cid
                    && (0 <=? n)
                    && (n <? Z.of_nat (List.length (field_or c.(questions) []))))
          cs = false ->
  0 <= n ->
  scan_collections cs cid n a ind = Ok ind.
Proof.
  intros Hcs Hex Hn. induction cs as [|c cs IH]; simpl; [reflexivity|].
  simpl in Hcs, Hex. apply andb_true_iff in Hcs as [Hc Hcs].
  apply orb_false_iff in Hex as [Hex1 Hex].
  destruct (String.eqb (collection_id c) cid); [|auto].
  unfold has_questions in Hc.
  destruct (questions c) as [qs|]; [|discriminate]. simpl in *.
  replace (0 <=? n) with true in Hex1 by (symmetry; lia). simpl in Hex1.
  rewrite Hex1. auto.
Qed.

Lemma key_ok_int k :
  key_ok k = true -> (List.length (Py.split "_" k) <? 3)%nat = false ->
  exists n, Py.int (nth 2 (Py.split "_" k) "") = Ok n /\ 0 <= n.
Proof.
  unfold key_ok, segments. intros Hk Hl. rewrite Hl in Hk. simpl in Hk.
  destruct (Py.int _) as [n|e]; [|discriminate].
  exists n. split; [reflexivity|lia].
Qed.

Lemma indicator_step_total qf ind k a :
  conformant qf = true -> key_ok k = true ->
  exists ind', indicator_step qf ind (k, a) = Ok ind'.
Proof.
  intros Hc Hk. unfold indicator_step.
  destruct (List.length (Py.split "_" k) <? 3)%nat eqn:El; [eauto|].
  destruct (key_ok_int k Hk El) as (n & -> & Hn). simpl.
  destruct (Dict.get qf _) as [page|] eqn:Eg; [|eauto].
  destruct (conformant_get _ _ _ Hc Eg) as (cs & -> & Hcs). simpl.
  now apply scan_collections_total.
Qed.

Lemma indicator_step_skip qf ind k a :
  conformant qf = true -> key_ok k = true -> resolves qf k = false ->
  indicator_step qf ind (k, a) = Ok ind.
Proof.
  intros Hc Hk Hr. unfold indicator_step.
  destruct (List.length (Py.split "_" k) <? 3)%nat eqn:El; [reflexivity|].
  destruct (key_ok_int k Hk El) as (n & En & Hn). rewrite En. simpl.
  unfold resolves, segments in Hr. rewrite En in Hr.
  replace (3 <=? List.length (Py.split "_" k))%nat with true in Hr
    by (symmetry; apply Nat.leb_le; apply Nat.ltb_ge in El; exact El).
  simpl in Hr.
  destruct (Dict.get qf _) as [page|] eqn:Eg; [|reflexivity].
  destruct (conformant_get _ _ _ Hc Eg) as (cs & Ecs & Hcs).
  rewrite Ecs in *. simpl in *.
  now apply scan_collections_skip.
Qed.

Lemma indicator_scores_total qf answers :
  conformant qf = true -> forallb key_ok (Dict.keys answers) = true ->
  forall ind, exists ind', for_each (indicator_step qf) answers ind = Ok ind'.
Proof.
  intros Hc. induction answers as [|[k a] answers IH]; intros Hk ind;
    cbn [for_each].
  - eauto.
  - simpl in Hk. apply andb_true_iff in Hk as [Hk Hks].
    destruct (indicator_step_total qf ind k a Hc Hk) as [ind1 ->].
    cbn [rbind]. auto.
Qed.

Lemma question_scores_empty qs : question_scores [] qs = [].
Proof.
  unfold question_scores.
  apply (fold_left_invariant (fun l => l = [])); [|reflexivity].
  intros s q ->. destruct (question_id q) as [qid|]; [|reflexivity].
  now destruct (negb (String.eqb qid "")).
Qed.

Lemma criterion_scores_empty qf : _calculate_criterion_scores qf [] = [].
Proof.
  unfold _calculate_criterion_scores.
  apply (fold_left_invariant (fun d => d = [])); [|reflexivity].
  intros s item ->.
  apply (fold_left_invariant (fun d => d = [])); [|reflexivity].
  intros s c ->. unfold criterion_step. now rewrite question_scores_empty.
Qed.

Lemma collection_scores_empty cs : collection_scores [] cs = [].
Proof.
  unfold collection_scores.
  apply (fold_left_invariant (fun l => l = [])); [|reflexivity].
  now intros s c ->.
Qed.

Lemma value_scores_empty qf : _calculate_value_scores qf [] = [].
Proof.
  unfold _calculate_value_scores.
  apply (fold_left_invariant (fun d => d = [])); [|reflexivity].
  intros s [k page] ->. unfold value_step. now rewrite collection_scores_empty.
Qed.

Lemma scores_of_empty qf : scores_of qf [] = empty_scores.
Proof.
  unfold scores_of, empty_scores.
  now rewrite criterion_scores_empty, value_scores_empty.
Qed.

Lemma keys_app {V : Type} (d1 d2 : Dict.t V) :
  Dict.keys (d1 ++ d2) = (Dict.keys d1 ++ Dict.keys d2).
Proof. apply map_app. Qed.

Lemma returns_call qf cache answers :
  returns calculate_all_scores (call qf cache answers) =
  match answers with
  | [] => Ok empty_scores
  | _ :: _ =>
      rbind (_calculate_indicator_scores qf answers)
            (fun ind => Ok (scores_of qf ind))
  end.
Proof. now rewrite calculate_all_scores_returns. Qed.

(** C1, as the code has it. For a conformant catalog and an answers map in
    which the third segment of every key with at least three segments is
    a literal that [int] reads as a natural number (blanks, an optional
    sign, digits with single underscores between them, at most 4300
    digits), [calculate_all_scores] returns normally; and
    a record whose key has fewer than three segments, or whose page key,
    collection id or question index does not resolve against the catalog,
    is skipped: the call returns what it returns without that record. *)
Theorem calculate_all_scores_total :
  forall question_files cache answers,
    conformant question_files = true ->
    forallb key_ok (Dict.keys answers) = true ->
    (exists sd,
        returns calculate_all_scores (call question_files cache answers) = Ok sd)
    /\ forall before k a after,
         answers = before ++ (k, a) :: after ->
         resolves question_files k = false ->
         returns calculate_all_scores (call question_files cache answers)
         = returns calculate_all_scores
             (call question_files cache (before ++ after)).
Proof.
  intros qf cache answers Hc Hk. split.
  - rewrite returns_call.
    destruct (indicator_scores_total qf answers Hc Hk []) as [ind Ei].
    unfold _calculate_indicator_scores. rewrite Ei.
    destruct answers; cbn [rbind]; eauto.
  - intros before k a after -> Hr.
    rewrite keys_app, forallb_app in Hk. apply andb_true_iff in Hk as [Hkb Hka].
    simpl in Hka. apply andb_true_iff in Hka as [Hkk Hka].
    rewrite !returns_call.
    assert (Estep : forall ind,
               for_each (indicator_step qf) ((k, a) :: after) ind
               = for_each (indicator_step qf) after ind).
    { intros ind. cbn [for_each]. now rewrite indicator_step_skip. }
    assert (Eall : _calculate_indicator_scores qf (before ++ (k, a) :: after)
                   = _calculate_indicator_scores qf (before ++ after)).
    { unfold _calculate_indicator_scores. rewrite !for_each_app.
      destruct (for_each (indicator_step qf) before []) as [ind|e]; cbn [rbind];
        [apply Estep|reflexivity]. }
    rewrite Eall.
    destruct (before ++ (k, a) :: after) as [|x l] eqn:E1.
    { destruct before; discriminate. }
    destruct (before ++ after) as [|y l'] eqn:E2; [|reflexivity].
    unfold _calculate_indicator_scores. cbn [for_each rbind].
    now rewrite scores_of_empty.
Qed.

(** Three records, of which the second names a position past the end of
    the collection and the third has a single segment. *)
Lemma calculate_all_scores_total_witness :
  (exists sd,
      returns calculate_all_scores
        (call sample_catalog None
              [("Q1_C1_0", chosen "B"); ("Q1_C1_7", chosen "D"); ("note", chosen "C")])
      = Ok sd)
  /\ returns calculate_all_scores
       (call sample_catalog None
             [("Q1_C1_0", chosen "B"); ("Q1_C1_7", chosen "D"); ("note", chosen "C")])
     = returns calculate_all_scores
         (call sample_catalog None [("Q1_C1_0", chosen "B"); ("note", chosen "C")]).
Proof.
  destruct (calculate_all_scores_total sample_catalog None
              [("Q1_C1_0", chosen "B"); ("Q1_C1_7", chosen "D"); ("note", chosen "C")]
              eq_refl eq_refl) as [Hret Hskip].
  split; [exact Hret|].
  exact (Hskip [("Q1_C1_0", chosen "B")] "Q1_C1_7" (chosen "D")
               [("note", chosen "C")] eq_refl eq_refl).
Defined.

(** C1 as stated fails on a key whose third segment is not a number:
    [int] raises [ValueError] before any lookup is tried. *)
Lemma calculate_all_scores_raises_counterexample :
  returns calculate_all_scores (init sample_catalog [("Q1_C1_x", chosen "B")])
  = Raise ValueError.
Proof. reflexivity. Qed.

(* ===================================================================== *)
(** * Last-wins loops *)
(* ===================================================================== *)

Section LastWinsFacts.
Context {A V : Type} (key : A -> string) (val : A -> option V).

Lemma get_assign d x k :
  Dict.get (assign key val d x) k
  = match (if String.eqb (key x) k then val x else None) with
    | Some v => Some v
    | None => Dict.get d k
    end.
Proof.
  unfold assign. destruct (String.eqb_spec (key x) k) as [<-|Hne].
  - destruct (val x); [apply get_set_same|reflexivity].
  - destruct (val x); [now apply get_set_other|reflexivity].
Qed.

Lemma get_fold_assign l d k :
  Dict.get (fold_left (assign key val) l d) k
  = match last_assigned key val k l with
    | Some v => Some v
    | None => Dict.get d k
    end.
Proof.
  revert d. induction l as [|x l IH]; intros d; simpl; [reflexivity|].
  rewrite IH. destruct (last_assigned key val k l); [reflexivity|].
  apply get_assign.
Qed.

Lemma wf_fold_assign l d : Dict.wf d -> Dict.wf (fold_left (assign key val) l d).
Proof.
  apply (fold_left_invariant (fun d => Dict.wf d)).
  intros s x Hs. unfold assign. destruct (val x); [now apply wf_set|assumption].
Qed.

Lemma last_assigned_none l k :
  (forall x, In x l -> key x = k -> val x = None) ->
  last_assigned key val k l = None.
Proof.
  induction l as [|x l IH]; intros H; simpl; [reflexivity|].
  rewrite IH by (intros y Hy; apply H; now right).
  destruct (String.eqb_spec (key x) k) as [E|]; [|reflexivity].
  apply H; [now left|assumption].
Qed.

Lemma last_assigned_absent l k :
  ~ In k (map key l) -> last_assigned key val k l = None.
Proof.
  intros H. apply last_assigned_none. intros x Hx E. exfalso. apply H.
  rewrite <- E. now apply in_map.
Qed.

Lemma last_assigned_split a x b k v :
  key x = k -> val x = Some v ->
  (forall y, In y b -> key y = k -> val y = None) ->
  last_assigned key val k (a ++ x :: b) = Some v.
Proof.
  intros Hk Hv Hb. induction a as [|y a IH]; simpl.
  - rewrite last_assigned_none by assumption.
    subst k. now rewrite String.eqb_refl.
  - now rewrite IH.
Qed.

Lemma last_assigned_unique l x :
  NoDup (map key l) -> In x l -> last_assigned key val (key x) l = val x.
Proof.
  induction l as [|y l IH]; simpl; [tauto|].
  intros Hnd [->|Hin]; inversion Hnd; subst.
  - rewrite last_assigned_absent by assumption. now rewrite String.eqb_refl.
  - rewrite IH by assumption. destruct (val x) eqn:E; [reflexivity|].
    destruct (String.eqb_spec (key y) (key x)) as [Hk|]; [|reflexivity].
    exfalso. apply H1. rewrite Hk. now apply in_map.
Qed.

End LastWinsFacts.

(** ** The criterion and value passes as last-wins loops *)

Lemma criterion_step_assign ind d c :
  criterion_step ind d c = assign collection_id (criterion_value ind) d c.
Proof.
  unfold criterion_step, assign, criterion_value, scores_for.
  now destruct (question_scores ind (field_or (questions c) [])).
Qed.

Lemma value_step_assign crit d item :
  value_step crit d item = assign item_name (value_value crit) d item.
Proof.
  destruct item as [k page].
  unfold value_step, assign, value_value, scores_for_page, item_name. simpl.
  now destruct (collection_scores crit (field_or (question_collections page) [])).
Qed.

Lemma fold_left_ext {A S : Type} (f g : S -> A -> S) (l : list A) (s : S) :
  (forall s x, f s x = g s x) -> fold_left f l s = fold_left g l s.
Proof.
  intros H. revert s. induction l as [|x l IH]; intros s; simpl; [reflexivity|].
  now rewrite H, IH.
Qed.

Lemma criterion_scores_fold qf ind :
  _calculate_criterion_scores qf ind
  = fold_left (assign collection_id (criterion_value ind)) (all_collections qf) [].
Proof.
  unfold _calculate_criterion_scores, all_collections, collections_of.
  rewrite (fold_left_flat_map (criterion_step ind)
             (fun item : string * page_data =>
                field_or (question_collections (snd item)) [])).
  apply fold_left_ext. apply criterion_step_assign.
Qed.

Lemma value_scores_fold qf crit :
  _calculate_value_scores qf crit
  = fold_left (assign item_name (value_value crit)) qf [].
Proof.
  unfold _calculate_value_scores. apply fold_left_ext. apply value_step_assign.
Qed.

Lemma criterion_scores_get qf ind k :
  Dict.get (_calculate_criterion_scores qf ind) k
  = last_assigned collection_id (criterion_value ind) k (all_collections qf).
Proof.
  rewrite criterion_scores_fold, get_fold_assign.
  now destruct (last_assigned _ _ _ _).
Qed.

Lemma value_scores_get qf crit k :
  Dict.get (_calculate_value_scores qf crit) k
  = last_assigned item_name (value_value crit) k qf.
Proof.
  rewrite value_scores_fold, get_fold_assign.
  now destruct (last_assigned _ _ _ _).
Qed.

Lemma criterion_scores_wf qf ind : Dict.wf (_calculate_criterion_scores qf ind).
Proof. rewrite criterion_scores_fold. apply wf_fold_assign. constructor. Qed.

(** ** The collected score lists *)

Lemma fold_left_collect {A B : Type} (g : A -> option B) (l : list A) (acc : list B) :
  fold_left (fun scores x => match g x with
                             | Some s => scores ++ [s]
                             | None => scores
                             end) l acc
  = acc ++ flat_map (fun x => match g x with Some s => [s] | None => [] end) l.
Proof.
  revert acc. induction l as [|x l IH]; intros acc; simpl.
  - now rewrite app_nil_r.
  - rewrite IH. destruct (g x); [now rewrite <- app_assoc|reflexivity].
Qed.

Lemma collection_scores_flat crit cs :
  collection_scores crit cs = flat_map (contribution crit) cs.
Proof.
  unfold collection_scores.
  now rewrite (fold_left_collect (fun c => Dict.get crit (collection_id c))).
Qed.

Lemma collection_scores_scored crit page :
  scores_for_page crit page
  = scores_of_collections crit (scored_collections crit page).
Proof.
  unfold scores_for_page, scored_collections, scores_of_collections, collections_of.
  rewrite collection_scores_flat.
  induction (field_or (question_collections page) []) as [|c cs IH]; simpl;
    [reflexivity|].
  unfold contribution at 1, Dict.mem, Dict.get_default.
  destruct (Dict.get crit (collection_id c)) eqn:E; simpl.
  - unfold Dict.get_default. now rewrite E, IH.
  - exact IH.
Qed.

Lemma question_scores_flat ind qs :
  question_scores ind qs
  = flat_map (fun q => match question_score ind q with
                       | Some s => [s]
                       | None => []
                       end) qs.
Proof.
  unfold question_scores.
  rewrite <- (app_nil_l (flat_map _ qs)).
  rewrite <- (fold_left_collect (question_score ind)).
  apply fold_left_ext. intros s q. unfold question_score.
  destruct (question_id q) as [qid|]; [|reflexivity].
  now destruct (negb (String.eqb qid "")).
Qed.

Lemma question_scores_scored ind c :
  forallb has_id (questions_of c) = true ->
  scores_for ind c = scores_of_questions ind (scored_questions ind c).
Proof.
  unfold scores_for, scored_questions, scores_of_questions, questions_of.
  rewrite question_scores_flat.
  induction (field_or (questions c) []) as [|[[qid|]] qs IH];
    cbn [forallb flat_map filter]; [reflexivity| |discriminate].
  intros H. apply andb_true_iff in H as [Hq Hqs].
  rewrite IH by assumption.
  unfold question_score, id_of, has_id, Dict.mem, Dict.get_default in *.
  cbn [question_id field_or] in *. rewrite Hq.
  destruct (Dict.get ind qid) eqn:E; cbn [map app]; [|reflexivity].
  cbn [question_id field_or]. now rewrite E.
Qed.

(* ===================================================================== *)
(** * Criterion and value scores *)
(* ===================================================================== *)

Lemma score_layers (h : heap) (sd : ScoreData) :
  returns calculate_all_scores h = Ok sd ->
  criterion_scores sd
  = _calculate_criterion_scores (self_question_files h) (indicator_scores sd)
  /\ value_scores sd
     = _calculate_value_scores (self_question_files h) (criterion_scores sd).
Proof.
  rewrite calculate_all_scores_returns.
  destruct (answers_object h).
  - intros [= <-]. simpl.
    now rewrite criterion_scores_empty, value_scores_empty.
  - destruct (_calculate_indicator_scores _ _); simpl; [|discriminate].
    intros [= <-]. split; reflexivity.
Qed.

(** C2, as the code has it. In a catalog whose collection ids are pairwise
    distinct, and for a collection all of whose questions carry a
    non-empty [question_id], the criterion map has an entry for the
    collection exactly when one of its questions appears in the indicator
    map under its [question_id], and the entry is the arithmetic mean of
    the indicator scores of exactly those questions. *)
Theorem criterion_scores_spec :
  forall (h : heap) (sd : ScoreData),
    returns calculate_all_scores h = Ok sd ->
    NoDup (map collection_id (all_collections (self_question_files h))) ->
    forall c : collection,
      In c (all_collections (self_question_files h)) ->
      forallb has_id (questions_of c) = true ->
      Dict.get (criterion_scores sd) (collection_id c)
      = match scored_questions (indicator_scores sd) c with
        | [] => None
        | _ :: _ =>
            Some (mean_int (scores_of_questions (indicator_scores sd)
                              (scored_questions (indicator_scores sd) c)))
        end.
Proof.
  intros h sd Hret Hnd c Hc Hid.
  destruct (score_layers h sd Hret) as [-> _].
  rewrite criterion_scores_get, last_assigned_unique by assumption.
  unfold criterion_value. rewrite question_scores_scored by assumption.
  unfold scores_of_questions.
  now destruct (scored_questions (indicator_scores sd) c).
Qed.

Lemma criterion_scores_spec_witness :
  Dict.get [("C1", 2%Q)] "C1"
  = Some (mean_int (scores_of_questions [("I1", 1); ("I2", 3)]
                      [sample_question "I1"; sample_question "I2"])).
Proof.
  refine (criterion_scores_spec
            (init sample_catalog [("Q1_C1_0", chosen "B"); ("Q1_C1_1", chosen "D")])
            {| indicator_scores := [("I1", 1); ("I2", 3)];
               criterion_scores := [("C1", 2%Q)];
               value_scores := [("Quality", 2%Q)] |}
            eq_refl _
            (sample_collection "C1" [sample_question "I1"; sample_question "I2"])
            _ eq_refl).
  - repeat constructor. simpl. tauto.
  - simpl. left. reflexivity.
Defined.

(** C2 as stated fails when two questionnaires use the same collection
    id: no question of the collection "X" of "P1" is in the indicator map,
    under its id or under its fallback id, and yet the criterion map has an
    entry for "X", the one computed for "P2". *)
Lemma criterion_shared_id_counterexample :
  let c := sample_collection "X" [sample_question "I1"] in
  exists sd,
    returns calculate_all_scores (init shared_catalog [("P2_X_0", chosen "B")]) = Ok sd
    /\ conformant shared_catalog = true
    /\ In c (collections_of (sample_page "One" [c]))
    /\ Dict.get shared_catalog "P1" = Some (sample_page "One" [c])
    /\ Dict.mem (indicator_scores sd) "I1" = false
    /\ Dict.mem (indicator_scores sd) (fallback_id "X" 0) = false
    /\ Dict.get (criterion_scores sd) (collection_id c) = Some 1%Q.
Proof.
  eexists. split; [reflexivity|]. simpl. repeat split; auto.
Qed.

(** A question without [question_id] is scored by the indicator pass under
    its fallback id; the criterion pass looks questions up by
    [question_id] only and does not find it. *)
Lemma criterion_fallback_id_example :
  returns calculate_all_scores
    (init [("Q1", sample_page "Quality" [sample_collection "C1" [unnamed_question]])]
          [("Q1_C1_0", chosen "B")])
  = Ok {| indicator_scores := [("C1_0", 1)];
          criterion_scores := [];
          value_scores := [] |}.
Proof. reflexivity. Qed.

(* ===================================================================== *)
(** * Progress statistics *)
(* ===================================================================== *)

Lemma progress_collections_run answers page_name cs t a :
  forallb has_questions cs = true ->
  for_each (progress_collection_step answers page_name) cs (t, a)
  = Ok (t + sumZ (map (fun c => Z.of_nat (List.length (questions_of c))) cs),
        a + sumZ (map (fun c => collection_answered answers page_name
                                  (collection_id c)) cs)).
Proof.
  revert t a. induction cs as [|c cs IH]; intros t a H; cbn [for_each map sumZ fold_right].
  - now rewrite !Z.add_0_r.
  - cbn [forallb] in H. apply andb_true_iff in H as [Hc Hcs].
    unfold has_questions in Hc.
    unfold progress_collection_step at 1. unfold questions_of at 1.
    destruct (questions c) as [qs|]; [|discriminate].
    cbn [field rbind field_or]. rewrite IH by assumption.
    now rewrite !Z.add_assoc.
Qed.

Lemma progress_page_run answers pd ta aa page_name page :
  conformant_page page = true ->
  progress_page_step answers (pd, ta, aa) (page_name, page)
  = Ok (assign fst (stats_value answers) pd (page_name, page),
        ta + page_total page,
        aa + page_answered answers page_name page).
Proof.
  unfold conformant_page, progress_page_step, assign, stats_value, page_stats,
    page_total, page_answered, collections_of.
  cbn [fst snd].
  destruct (question_collections page) as [cs|]; [|discriminate].
  intros Hcs. cbn [field rbind field_or].
  rewrite progress_collections_run by exact Hcs.
  cbn [rbind]. now rewrite !Z.add_0_l.
Qed.

Lemma progress_pages_run answers qf pd ta aa :
  conformant qf = true ->
  for_each (progress_page_step answers) qf (pd, ta, aa)
  = Ok (fold_left (assign fst (stats_value answers)) qf pd,
        ta + sumZ (map (fun item => page_total (snd item)) qf),
        aa + sumZ (map (fun item => page_answered answers (fst item) (snd item)) qf)).
Proof.
  revert pd ta aa. induction qf as [|[k page] qf IH]; intros pd ta aa H;
    cbn [for_each map sumZ fold_right fold_left fst snd].
  - now rewrite !Z.add_0_r.
  - unfold conformant in H. cbn [forallb snd] in H.
    apply andb_true_iff in H as [Hp Hqf].
    rewrite progress_page_run by assumption. cbn [rbind].
    rewrite IH by exact Hqf. now rewrite !Z.add_assoc.
Qed.

(** C4, as the code has it. For a conformant catalog, [get_progress_data]
    returns a map that gives, for every page whose key is not "overall",
    the sum of the question counts of its collections, the number of answer
    keys starting with "<page>_<collection_id>" summed over its
    collections, and their ratio (0 when the total is 0); and under
    "overall" the sums of both counts over all pages and their ratio (0
    when the grand total is 0). *)
Theorem get_progress_data_spec :
  forall (h : heap),
    conformant (self_question_files h) = true ->
    Dict.wf (self_question_files h) ->
    exists progress_data,
      returns get_progress_data h = Ok progress_data
      /\ (forall page_name page,
             Dict.get (self_question_files h) page_name = Some page ->
             page_name <> "overall" ->
             Dict.get progress_data page_name
             = Some (page_stats (answers_object h) page_name page))
      /\ Dict.get progress_data "overall"
         = Some (overall_stats (self_question_files h) (answers_object h)).
Proof.
  intros h Hc Hwf. unfold returns. rewrite get_progress_data_run.
  rewrite progress_pages_run by assumption. cbn [rbind fst snd].
  eexists. split; [reflexivity|]. split.
  - intros k page Hget Hk.
    rewrite get_set_other by congruence.
    rewrite get_fold_assign.
    apply get_some_in in Hget.
    change k with (fst (k, page)) at 1.
    rewrite last_assigned_unique by assumption. reflexivity.
  - rewrite get_set_same. reflexivity.
Qed.

Lemma get_progress_data_spec_witness :
  exists progress_data,
    returns get_progress_data
      (init progress_catalog [("Q1_C1_0", chosen "B"); ("Q1_C1_1", chosen "A")])
    = Ok progress_data
    /\ Dict.get progress_data "Q1"
       = Some {| total := 6; answered := 2; progress := (1 # 3)%Q |}
    /\ Dict.get progress_data "overall"
       = Some {| total := 6; answered := 2; progress := (1 # 3)%Q |}.
Proof.
  destruct (get_progress_data_spec
              (init progress_catalog [("Q1_C1_0", chosen "B"); ("Q1_C1_1", chosen "A")])
              eq_refl) as (d & Hret & Hpage & Hall).
  - repeat constructor. simpl. tauto.
  - exists d. split; [exact Hret|]. split; [|exact Hall].
    apply (Hpage "Q1" _ eq_refl). discriminate.
Defined.

(** C4 as stated fails for a page whose key is "overall": its entry is
    replaced by the grand totals. *)
Lemma progress_overall_page_counterexample :
  let page := sample_page "First" [sample_collection "C1" [unnamed_question]] in
  exists progress_data entry,
    returns get_progress_data (init overall_catalog []) = Ok progress_data
    /\ Dict.get overall_catalog "overall" = Some page
    /\ page_total page = 1
    /\ Dict.get progress_data "overall" = Some entry
    /\ total entry = 3.
Proof.
  do 2 eexists. split; [reflexivity|]. repeat split; reflexivity.
Qed.

(* ===================================================================== *)
(** * Keys written by the presentation layer *)
(* ===================================================================== *)

(** ** Splitting *)

Lemma split_free sep s : free_of sep s = true -> Py.split sep s = [s].
Proof.
  induction s as [|a s IH]; simpl; [reflexivity|].
  intros H. apply andb_true_iff in H as [Ha Hs].
  apply negb_true_iff in Ha. rewrite Ha, IH by assumption. reflexivity.
Qed.

Lemma split_app sep a b :
  free_of sep a = true ->
  Py.split sep (a ++ String sep b)%string = a :: Py.split sep b.
Proof.
  induction a as [|c a IH]; simpl.
  - now rewrite Ascii.eqb_refl.
  - intros H. apply andb_true_iff in H as [Hc Ha].
    apply negb_true_iff in Hc. rewrite Hc, IH by assumption. reflexivity.
Qed.

(** ** Reading back a printed number *)

Lemma digits_of_uint d acc prev :
  Py.digits (NilEmpty.string_of_uint d) acc prev
  = match d with
    | Decimal.Nil => if prev then Some acc else None
    | _ => Some (uint_value d acc)
    end.
Proof.
  revert acc prev. induction d; intros acc prev; try reflexivity;
    cbn [NilEmpty.string_of_uint Py.digits uint_value];
    (match goal with
     | |- context [Py.digit_of ?c] =>
         change (Py.digit_of c) with (Some (Z.of_N (N_of_ascii c - 48)))
     end);
    cbn beta iota; rewrite IHd; destruct d; reflexivity.
Qed.

Lemma uint_value_pos d p :
  uint_value d (Z.pos p) = Z.pos (Pos.of_uint_acc d p).
Proof.
  revert p. induction d; intros p; cbn [uint_value Pos.of_uint_acc];
    try reflexivity;
    match goal with
    | |- uint_value _ ?a = _ =>
        match goal with
        | |- _ = Z.pos (Pos.of_uint_acc _ ?q) =>
            replace a with (Z.pos q) by lia
        end
    end; apply IHd.
Qed.

Lemma uint_value_of_uint d : uint_value d 0 = Z.of_uint d.
Proof.
  unfold Z.of_uint.
  induction d; cbn [uint_value Pos.of_uint]; try reflexivity;
    try (change (10 * 0 + 0) with 0; exact IHd);
    match goal with
    | |- uint_value _ ?a = _ =>
        let v := eval compute in a in
        change a with v
    end; rewrite uint_value_pos; reflexivity.
Qed.

Lemma all_digits_of_uint d : all_digits (NilEmpty.string_of_uint d) = true.
Proof. induction d; simpl; auto. Qed.

Lemma digit_not_blank c : is_digit c = true -> Py.is_blank c = false.
Proof. destruct c as [[] [] [] [] [] [] [] []]; (reflexivity || discriminate). Qed.

Lemma digit_not_sign c :
  is_digit c = true ->
  Ascii.eqb c "+" = false /\ Ascii.eqb c "-" = false /\ Ascii.eqb c "_" = false.
Proof.
  destruct c as [[] [] [] [] [] [] [] []]; intros H; try discriminate;
    repeat split; reflexivity.
Qed.

Lemma drop_blanks_digits s : all_digits s = true -> Py.drop_blanks s = s.
Proof.
  induction s as [|c s IH]; simpl; [reflexivity|].
  intros H. apply andb_true_iff in H as [Hc Hs].
  rewrite IH by assumption. rewrite (digit_not_blank c Hc).
  now destruct s.
Qed.

Lemma blanks_digits s :
  all_digits s = true -> Py.drop_blanks (Py.skip_blanks s) = s.
Proof.
  intros H.
  replace (Py.skip_blanks s) with s; [now apply drop_blanks_digits|].
  destruct s as [|c s]; [reflexivity|]. simpl in *.
  apply andb_true_iff in H as [Hc _]. now rewrite (digit_not_blank c Hc).
Qed.

Lemma blanks_minus_digits s :
  all_digits s = true ->
  Py.drop_blanks (Py.skip_blanks (String "-" s)) = String "-" s.
Proof.
  intros H. cbn [Py.skip_blanks].
  change (Py.is_blank "-") with false. cbn iota.
  cbn [Py.drop_blanks]. rewrite drop_blanks_digits by assumption.
  now destruct s.
Qed.

(** The digits that [int] counts in a printed numeral are all its
    characters, and a numeral without leading zero is at least the power
    of ten of its length. *)
Lemma count_digits_of_uint d :
  Py.count_digits (NilEmpty.string_of_uint d) = Z.of_nat (Decimal.nb_digits d).
Proof.
  induction d; cbn [NilEmpty.string_of_uint Py.count_digits Decimal.nb_digits];
    [reflexivity|..];
    (match goal with
     | |- context [Py.digit_of ?c] =>
         change (Py.digit_of c) with (Some (Z.of_N (N_of_ascii c - 48)))
     end);
    cbn iota; rewrite IHd; lia.
Qed.

Lemma uint_value_lower d acc :
  0 <= acc -> acc * 10 ^ Z.of_nat (Decimal.nb_digits d) <= uint_value d acc.
Proof.
  revert acc. induction d; intros acc Hacc;
    cbn [uint_value Decimal.nb_digits];
    [rewrite Z.pow_0_r; lia|..];
    rewrite Nat2Z.inj_succ, Z.pow_succ_r by lia;
    (match goal with
     | |- _ <= uint_value _ ?a =>
         assert (Ha : 0 <= a) by lia;
         specialize (IHd a Ha);
         assert (Hp : 0 < 10 ^ Z.of_nat (Decimal.nb_digits d))
           by (apply Z.pow_pos_nonneg; lia);
         nia
     end).
Qed.

Lemma to_uint_normal p : Decimal.unorm (Pos.to_uint p) = Pos.to_uint p.
Proof.
  rewrite <- (DecimalPos.Unsigned.to_of (Pos.to_uint p)).
  now rewrite DecimalPos.Unsigned.of_to.
Qed.

Lemma to_uint_leading p :
  match Pos.to_uint p with
  | Decimal.Nil | Decimal.D0 _ => False
  | _ => True
  end.
Proof.
  pose proof (to_uint_normal p) as Enorm.
  pose proof (DecimalPos.Unsigned.to_uint_nonzero p) as Hnz.
  destruct (Pos.to_uint p) as [|l|l|l|l|l|l|l|l|l|l]; try exact I.
  - discriminate.
  - rewrite DecimalFacts.unorm_D0 in Enorm.
    destruct l as [|l|l|l|l|l|l|l|l|l|l]; [now apply Hnz|..];
      (match type of Enorm with
       | Decimal.unorm ?x = _ =>
           assert (Hx : x <> Decimal.Nil) by discriminate;
           pose proof (DecimalFacts.nb_digits_unorm x Hx) as Hb
       end);
      rewrite Enorm in Hb; cbn [Decimal.nb_digits] in Hb; lia.
Qed.

Lemma uint_value_leading d :
  match d with
  | Decimal.Nil | Decimal.D0 _ => False
  | _ => True
  end ->
  10 ^ (Z.of_nat (Decimal.nb_digits d) - 1) <= uint_value d 0.
Proof.
  destruct d as [|l|l|l|l|l|l|l|l|l|l]; intros H; try contradiction;
    cbn [Decimal.nb_digits uint_value];
    replace (Z.of_nat (S (Decimal.nb_digits l)) - 1)
      with (Z.of_nat (Decimal.nb_digits l)) by lia;
    (match goal with
     | |- _ <= uint_value l ?a =>
         pose proof (uint_value_lower l a ltac:(lia)) as Hl;
         assert (Hp : 0 < 10 ^ Z.of_nat (Decimal.nb_digits l))
           by (apply Z.pow_pos_nonneg; lia);
         nia
     end).
Qed.

Lemma nb_digits_to_uint p n :
  0 <= n -> Z.pos p < 10 ^ n -> Z.of_nat (Decimal.nb_digits (Pos.to_uint p)) <= n.
Proof.
  intros Hn Hp.
  assert (Eval : uint_value (Pos.to_uint p) 0 = Z.pos p).
  { rewrite uint_value_of_uint. unfold Z.of_uint.
    now rewrite DecimalPos.Unsigned.of_to. }
  pose proof (uint_value_leading _ (to_uint_leading p)) as Hlow.
  rewrite Eval in Hlow.
  destruct (Z.le_gt_cases (Z.of_nat (Decimal.nb_digits (Pos.to_uint p))) n)
    as [Hle|Hgt]; [exact Hle|exfalso].
  assert (Hm : 10 ^ n <= 10 ^ (Z.of_nat (Decimal.nb_digits (Pos.to_uint p)) - 1))
    by (apply Z.pow_le_mono_r; lia).
  lia.
Qed.

Lemma int_of_uint d :
  d <> Decimal.Nil ->
  Z.of_nat (Decimal.nb_digits d) <= Py.int_max_str_digits ->
  Py.int (NilEmpty.string_of_uint d) = Ok (Z.of_uint d).
Proof.
  intros Hd Hlen. unfold Py.int.
  rewrite blanks_digits by apply all_digits_of_uint.
  rewrite count_digits_of_uint.
  replace (Z.of_nat (Decimal.nb_digits d) <=? Py.int_max_str_digits) with true
    by (symmetry; now apply Z.leb_le).
  assert (E : Py.digits (NilEmpty.string_of_uint d) 0 false = Some (Z.of_uint d)).
  { rewrite digits_of_uint, uint_value_of_uint. now destruct d. }
  destruct d; try congruence; cbn [NilEmpty.string_of_uint] in *;
    cbv beta iota; rewrite E; reflexivity.
Qed.

Lemma string_of_uint_nonnil d :
  d <> Decimal.Nil -> NilZero.string_of_uint d = NilEmpty.string_of_uint d.
Proof. now destruct d. Qed.

Lemma of_uint_to_uint p : Z.of_uint (Pos.to_uint p) = Z.pos p.
Proof. unfold Z.of_uint. now rewrite DecimalPos.Unsigned.of_to. Qed.

(** [int] reads back what [str] prints, for a number of at most
    [int_max_str_digits] digits. *)
Lemma int_str (n : Z) :
  Z.abs n < 10 ^ Py.int_max_str_digits -> Py.int (Py.str n) = Ok n.
Proof.
  intros Hn. unfold Py.str. destruct n as [|p|p]; [reflexivity| |];
    pose proof (DecimalPos.Unsigned.to_uint_nonnil p) as Hp;
    assert (Hlen : Z.of_nat (Decimal.nb_digits (Pos.to_uint p))
                   <= Py.int_max_str_digits)
      by (apply nb_digits_to_uint; [discriminate|exact Hn]);
    cbn [Z.to_int NilZero.string_of_int];
    rewrite string_of_uint_nonnil by assumption.
  - rewrite int_of_uint by assumption. now rewrite of_uint_to_uint.
  - unfold Py.int.
    rewrite blanks_minus_digits by apply all_digits_of_uint.
    cbn [Py.count_digits]. change (Py.digit_of "-") with (@None Z). cbn iota.
    rewrite count_digits_of_uint.
    replace (Z.of_nat (Decimal.nb_digits (Pos.to_uint p)) <=? Py.int_max_str_digits)
      with true by (symmetry; now apply Z.leb_le).
    rewrite digits_of_uint, uint_value_of_uint, of_uint_to_uint.
    now destruct (Pos.to_uint p).
Qed.

Lemma str_free_of_underscore (n : Z) : 0 <= n -> free_of "_" (Py.str n) = true.
Proof.
  assert (G : forall d, free_of "_" (NilEmpty.string_of_uint d) = true)
    by (induction d; simpl; auto).
  intros Hn. unfold Py.str. destruct n as [|p|p]; [reflexivity| |lia].
  cbn [Z.to_int NilZero.string_of_int].
  rewrite string_of_uint_nonnil by apply DecimalPos.Unsigned.to_uint_nonnil.
  apply G.
Qed.

Lemma storage_key_ok (page_key cid : string) (question_key : Z) :
  free_of "_" page_key = true -> free_of "_" cid = true -> 0 <= question_key ->
  segments (answer_storage_key page_key cid question_key)
  = [page_key; cid; Py.str question_key]
  /\ (question_key < 10 ^ Py.int_max_str_digits ->
      key_ok (answer_storage_key page_key cid question_key) = true).
Proof.
  intros Hp Hc Hq.
  assert (E : segments (answer_storage_key page_key cid question_key)
              = [page_key; cid; Py.str question_key]).
  { unfold segments, answer_storage_key.
    change ("_" ++ cid ++ "_" ++ Py.str question_key)%string
      with (String "_" (cid ++ String "_" (Py.str question_key))).
    rewrite split_app, split_app by assumption.
    now rewrite split_free by now apply str_free_of_underscore. }
  split; [exact E|]. intros Hmax.
  unfold key_ok. rewrite E. cbn [List.length nth Nat.ltb Nat.leb orb].
  rewrite int_str by lia. now apply Z.leb_le.
Qed.

(** A key built by [answer_storage_key] from identifiers without
    underscores is well formed, whatever the catalog. *)
Example storage_key_example :
  answer_storage_key "Q1" "C1" 12 = "Q1_C1_12"
  /\ key_ok (answer_storage_key "Q1" "C1" 12) = true.
Proof. split; reflexivity. Qed.

(** An identifier with an underscore shifts the segments: the third one is
    then no number and the call raises. *)
Example underscore_in_page_key :
  answer_storage_key "my_page" "C1" 0 = "my_page_C1_0"
  /\ key_ok (answer_storage_key "my_page" "C1" 0) = false
  /\ returns calculate_all_scores
       (init sample_catalog [(answer_storage_key "my_page" "C1" 0, chosen "B")])
     = Raise ValueError.
Proof. repeat split; reflexivity. Qed.

(** A negative third segment passes the test of line 77: Python then
    counts from the end of the question list, or raises [IndexError] when
    the list is too short. *)
Example negative_index :
  returns calculate_all_scores (init sample_catalog [("Q1_C1_-1", chosen "B")])
  = Ok {| indicator_scores := [("I2", 1)];
          criterion_scores := [("C1", 1%Q)];
          value_scores := [("Quality", 1%Q)] |}
  /\ returns calculate_all_scores (init sample_catalog [("Q1_C1_-3", chosen "B")])
     = Raise IndexError.
Proof. split; reflexivity. Qed.

(* ===================================================================== *)
(** * The grade codec, both ways *)
(* ===================================================================== *)

(** ** The letter of an integer grade *)

Lemma round_inject (n : Z) : Py.round (inject_Z n) = n.
Proof.
  unfold Py.round. rewrite Qfloor_Z.
  replace (inject_Z n - inject_Z n ?= 1 # 2)%Q with Lt; [reflexivity|].
  symmetry. apply -> Qlt_alt. generalize (inject_Z n). intros q. lra.
Qed.

Lemma inject_in_range (n : Z) : 0 <= n <= 6 -> (0 <= inject_Z n <= 6)%Q.
Proof.
  intros [H0 H6]. split.
  - change 0%Q with (inject_Z 0). now rewrite <- Zle_Qle.
  - change 6%Q with (inject_Z 6). now rewrite <- Zle_Qle.
Qed.

Lemma grade_to_letter_in_range (g : Q) :
  (0 <= g <= 6)%Q -> grade_to_letter g = Ok (letter_at (Py.round g)).
Proof.
  intros Hg. unfold grade_to_letter. rewrite (proj2 (in_range_test g) Hg).
  apply index_letter. now apply round_in_range.
Qed.

Lemma grade_to_letter_inject (n : Z) :
  0 <= n <= 6 -> grade_to_letter (inject_Z n) = Ok (letter_at n).
Proof.
  intros Hn. rewrite grade_to_letter_in_range by now apply inject_in_range.
  now rewrite round_inject.
Qed.

Lemma letter_at_in (n : Z) : 0 <= n <= 6 -> In (letter_at n) LETTER_MAPPING.
Proof.
  intros H.
  assert (C : n = 0 \/ n = 1 \/ n = 2 \/ n = 3 \/ n = 4 \/ n = 5 \/ n = 6) by lia.
  destruct C as [->|[->|[->|[->|[->|[->| ->]]]]]]; simpl; tauto.
Qed.

(** X1. [grade_to_letter] never raises: the test [0 <= grade <= 6] keeps
    the rounded grade inside the list of letters, and whatever the grade
    the result is one of the letters A..G. *)
Theorem grade_to_letter_never_raises :
  forall g : Q, exists letter,
    grade_to_letter g = Ok letter /\ In letter LETTER_MAPPING.
Proof.
  intros g. unfold grade_to_letter.
  destruct (Qle_bool 0 g && Qle_bool g 6) eqn:E.
  - apply in_range_test in E. exists (letter_at (Py.round g)).
    split; [apply index_letter | apply letter_at_in]; now apply round_in_range.
  - exists "A". split; [reflexivity|simpl; tauto].
Qed.

Lemma upper_in_table (s : string) :
  In (Py.upper s) LETTER_MAPPING ->
  letter_at (option_id_to_grade s) = Py.upper s.
Proof.
  intros H. unfold option_id_to_grade, Dict.get_default.
  simpl in H.
  destruct H as [<-|[<-|[<-|[<-|[<-|[<-|[<-|[]]]]]]]]; reflexivity.
Qed.

(** X2. The two codec functions invert each other on the table: an integer
    grade 0..6 becomes a letter that [option_id_to_grade] maps back to it,
    and an option id whose upper-case form is a letter A..G comes back as
    that upper-case letter; any other option id comes back as "A". *)
Theorem grade_codec_round_trip :
  (forall n : Z, 0 <= n <= 6 ->
     grade_to_letter (inject_Z n) = Ok (letter_at n)
     /\ option_id_to_grade (letter_at n) = n)
  /\ (forall s : string, In (Py.upper s) LETTER_MAPPING ->
        grade_to_letter (inject_Z (option_id_to_grade s)) = Ok (Py.upper s))
  /\ (forall s : string, ~ In (Py.upper s) LETTER_MAPPING ->
        grade_to_letter (inject_Z (option_id_to_grade s)) = Ok "A").
Proof.
  split; [|split].
  - intros n Hn. split; [now apply grade_to_letter_inject|].
    assert (C : n = 0 \/ n = 1 \/ n = 2 \/ n = 3 \/ n = 4 \/ n = 5 \/ n = 6) by lia.
    destruct C as [->|[->|[->|[->|[->|[->| ->]]]]]]; reflexivity.
  - intros s Hs.
    rewrite grade_to_letter_inject by apply option_id_to_grade_range.
    now rewrite upper_in_table.
  - intros s Hs.
    rewrite grade_to_letter_inject by apply option_id_to_grade_range.
    unfold option_id_to_grade, Dict.get_default.
    destruct (Dict.get GRADE_MAPPING (Py.upper s)) as [v|] eqn:E; [|reflexivity].
    exfalso. apply Hs. apply get_some_in in E.
    change LETTER_MAPPING with (Dict.keys GRADE_MAPPING).
    change (Py.upper s) with (fst (Py.upper s, v)). now apply in_map.
Qed.

(* ===================================================================== *)
(** * The grades that are displayed *)
(* ===================================================================== *)

Lemma layer_ranges (h : heap) (sd : ScoreData) :
  returns calculate_all_scores h = Ok sd ->
  Forall grade_range (Dict.values (indicator_scores sd))
  /\ Forall score_range (Dict.values (criterion_scores sd))
  /\ Forall score_range (Dict.values (value_scores sd)).
Proof.
  intros Hret. destruct (score_layers h sd Hret) as [Ec Ev].
  assert (Hi : Forall grade_range (Dict.values (indicator_scores sd))).
  { rewrite calculate_all_scores_returns in Hret.
    destruct (answers_object h).
    - injection Hret as <-. constructor.
    - destruct (_calculate_indicator_scores _ _) as [ind|e] eqn:E;
        cbn [rbind] in Hret; [|discriminate].
      injection Hret as <-. cbn [indicator_scores scores_of].
      eapply indicator_scores_range; eauto. }
  split; [exact Hi|]. rewrite Ev, Ec. split.
  - now apply criterion_scores_range.
  - apply value_scores_range. now apply criterion_scores_range.
Qed.

Lemma score_rows_in_range (scores : Dict.t Q) :
  Forall score_range (Dict.values scores) -> score_rows scores = Ok (lettered scores).
Proof.
  unfold score_rows, lettered.
  assert (G : forall acc,
             Forall score_range (Dict.values scores) ->
             for_each (fun rows (item : string * Q) =>
                         rbind (grade_to_letter (snd item))
                               (fun letter => Ok (rows ++ [(fst item, letter)])))
                      scores acc
             = Ok (acc ++ map (fun item => (fst item, letter_at (Py.round (snd item))))
                              scores)).
  { induction scores as [|[k v] scores IH]; intros acc H; cbn [for_each map].
    - now rewrite app_nil_r.
    - unfold Dict.values in H. cbn [map snd] in H. inversion H; subst.
      cbn [fst snd]. rewrite grade_to_letter_in_range by assumption.
      cbn [rbind]. rewrite IH by assumption. now rewrite <- app_assoc. }
  intros H. now rewrite G.
Qed.

Lemma as_numbers_range (scores : Dict.t Z) :
  Forall grade_range (Dict.values scores) ->
  Forall score_range (Dict.values (as_numbers scores)).
Proof.
  unfold Dict.values, as_numbers. rewrite map_map. cbn [snd].
  induction scores as [|[k v] scores IH]; cbn [map]; intros H; [constructor|].
  inversion H; subst. constructor; [|auto]. now apply inject_in_range.
Qed.

Lemma lettered_as_numbers (scores : Dict.t Z) :
  lettered (as_numbers scores)
  = map (fun item => (fst item, letter_at (snd item))) scores.
Proof.
  unfold lettered, as_numbers. rewrite map_map. apply map_ext.
  intros [k v]. cbn [fst snd]. now rewrite round_inject.
Qed.

Lemma overall_score_range (sd : ScoreData) :
  Forall score_range (Dict.values (value_scores sd)) ->
  score_range (overall_score sd).
Proof.
  intros H. unfold overall_score.
  destruct (value_scores sd) as [|x l] eqn:E.
  - split; discriminate.
  - apply mean_float_range; [discriminate|exact H].
Qed.

(** X3. After a call of [calculate_all_scores] that returned, computing
    the grade letters of the three maps and of the overall score never
    raises and never takes the out-of-range default: an indicator gets the
    letter at its score, a criterion, a value and the overall score the
    letter at their rounded score; the overall score lies in [0, 6]. *)
Theorem displayed_grades :
  forall (h : heap) (sd : ScoreData),
    returns calculate_all_scores h = Ok sd ->
    score_rows (as_numbers (indicator_scores sd))
    = Ok (map (fun item => (fst item, letter_at (snd item))) (indicator_scores sd))
    /\ score_rows (criterion_scores sd) = Ok (lettered (criterion_scores sd))
    /\ score_rows (value_scores sd) = Ok (lettered (value_scores sd))
    /\ (0 <= overall_score sd <= 6)%Q
    /\ grade_to_letter (overall_score sd)
       = Ok (letter_at (Py.round (overall_score sd))).
Proof.
  intros h sd Hret. destruct (layer_ranges h sd Hret) as (Hi & Hc & Hv).
  pose proof (overall_score_range sd Hv) as Ho.
  repeat split.
  - rewrite score_rows_in_range by now apply as_numbers_range.
    now rewrite lettered_as_numbers.
  - now apply score_rows_in_range.
  - now apply score_rows_in_range.
  - apply Ho.
  - apply Ho.
  - now apply grade_to_letter_in_range.
Qed.

(* ===================================================================== *)
(** * The indicator pass as a last-wins loop *)
(* ===================================================================== *)

Lemma index_nth {A : Type} (l : list A) (n : Z) (a : A) :
  0 <= n -> nth_error l (Z.to_nat n) = Some a -> Py.index l n = Ok a.
Proof.
  intros Hn Ha. unfold Py.index.
  assert (Hlt : (Z.to_nat n < List.length l)%nat)
    by (apply nth_error_Some; congruence).
  destruct (n <? 0) eqn:E; [lia|].
  replace ((0 <=? n) && (n <? Z.of_nat (List.length l))) with true
    by (symmetry; apply andb_true_iff; split; lia).
  now rewrite Ha.
Qed.

Lemma scan_collections_target cs cid n a ind :
  forallb has_questions cs = true -> 0 <= n ->
  scan_collections cs cid n a ind
  = Ok (match target_question cs cid n with
        | Some q => Dict.set ind (field_or q.(question_id) (fallback_id cid n))
                             (option_id_to_grade a.(option_id))
        | None => ind
        end).
Proof.
  intros Hcs Hn. unfold target_question.
  induction cs as [|c cs IH]; cbn [scan_collections find]; [reflexivity|].
  cbn [forallb] in Hcs. apply andb_true_iff in Hcs as [Hc Hcs].
  unfold has_questions in Hc. unfold reaches at 1. unfold questions_of at 1.
  destruct (questions c) as [qs|] eqn:Eq; [|discriminate].
  cbn [field rbind field_or].
  destruct (String.eqb (collection_id c) cid); cbn [andb]; [|auto].
  destruct (n <? Z.of_nat (List.length qs)) eqn:El; [|auto].
  unfold questions_of. rewrite Eq. cbn [field_or].
  destruct (nth_error qs (Z.to_nat n)) as [q|] eqn:En.
  - now rewrite (index_nth qs n q Hn En).
  - apply nth_error_None in En. lia.
Qed.

Lemma indicator_step_assign qf ind k a :
  conformant qf = true -> key_ok k = true ->
  indicator_step qf ind (k, a)
  = Ok (assign (indicator_key qf) (indicator_value qf) ind (k, a)).
Proof.
  intros Hc Hk.
  unfold indicator_step, assign, indicator_key, indicator_value, resolved_id,
    segments.
  cbn [fst snd].
  destruct (List.length (Py.split "_" k) <? 3)%nat eqn:El; [reflexivity|].
  destruct (key_ok_int k Hk El) as (n & -> & Hn). cbn [rbind].
  destruct (Dict.get qf _) as [page|] eqn:Eg; [|reflexivity].
  destruct (conformant_get _ _ _ Hc Eg) as (cs & Ecs & Hcs).
  rewrite Ecs. cbn [field rbind].
  rewrite scan_collections_target by assumption.
  unfold collections_of. rewrite Ecs. cbn [field_or].
  replace (0 <=? n) with true by (symmetry; lia).
  now destruct (target_question cs _ n).
Qed.

Lemma indicator_scores_fold qf answers :
  conformant qf = true -> forallb key_ok (Dict.keys answers) = true ->
  forall ind,
    for_each (indicator_step qf) answers ind
    = Ok (fold_left (assign (indicator_key qf) (indicator_value qf)) answers ind).
Proof.
  intros Hc. induction answers as [|[k a] answers IH]; intros Hk ind;
    cbn [for_each fold_left]; [reflexivity|].
  cbn [Dict.keys map fst forallb] in Hk. apply andb_true_iff in Hk as [Hk Hks].
  rewrite indicator_step_assign by assumption. cbn [rbind]. now apply IH.
Qed.

Lemma last_assigned_some_id qf qid answers v :
  last_assigned (indicator_key qf) (indicator_value qf) qid answers = Some v ->
  exists item, In item answers /\ resolved_id qf (fst item) = Some qid.
Proof.
  revert v. induction answers as [|x answers IH]; intros v; cbn [last_assigned];
    [discriminate|].
  destruct (last_assigned _ _ qid answers) as [w|].
  - intros _. destruct (IH w) as (item & Hin & Hr); [reflexivity|].
    exists item. split; [now right|exact Hr].
  - destruct (String.eqb_spec (indicator_key qf x) qid) as [E|]; [|discriminate].
    unfold indicator_value, indicator_key in *.
    destruct (resolved_id qf (fst x)) as [r|] eqn:Er; [|discriminate].
    intros _. exists x. split; [now left|]. cbn [field_or] in E. now subst.
Qed.

(** X4. For a conformant catalog and well-formed keys, the indicator map
    holds for a question id the grade of the last record, in the order of
    the answers map, whose key resolves to that id, and has no entry for an
    id to which no record resolves. *)
Theorem indicator_last_answer_wins :
  forall (h : heap) (sd : ScoreData),
    conformant (self_question_files h) = true ->
    forallb key_ok (Dict.keys (answers_object h)) = true ->
    returns calculate_all_scores h = Ok sd ->
    forall qid : string,
      (forall before k a after,
          answers_object h = before ++ (k, a) :: after ->
          resolved_id (self_question_files h) k = Some qid ->
          (forall item, In item after ->
                        resolved_id (self_question_files h) (fst item) <> Some qid) ->
          Dict.get (indicator_scores sd) qid
          = Some (option_id_to_grade a.(option_id)))
      /\ ((forall item, In item (answers_object h) ->
                        resolved_id (self_question_files h) (fst item) <> Some qid) ->
          Dict.get (indicator_scores sd) qid = None).
Proof.
  intros h sd Hc Hk Hret qid.
  assert (Eind : Dict.get (indicator_scores sd) qid
                 = last_assigned (indicator_key (self_question_files h))
                     (indicator_value (self_question_files h)) qid
                     (answers_object h)).
  { rewrite calculate_all_scores_returns in Hret.
    destruct (answers_object h) as [|x l] eqn:Ea.
    - injection Hret as <-. reflexivity.
    - unfold _calculate_indicator_scores in Hret. rewrite <- Ea in *.
      rewrite indicator_scores_fold in Hret by assumption.
      cbn [rbind] in Hret. injection Hret as <-.
      cbn [indicator_scores scores_of]. rewrite get_fold_assign.
      now destruct (last_assigned _ _ _ _). }
  rewrite Eind. split.
  - intros before k a after -> Hr Hafter.
    apply last_assigned_split.
    + unfold indicator_key. cbn [fst]. now rewrite Hr.
    + unfold indicator_value. cbn [fst snd]. now rewrite Hr.
    + intros y Hy Ey. unfold indicator_value.
      destruct (resolved_id (self_question_files h) (fst y)) as [r|] eqn:Er;
        [|reflexivity].
      exfalso. apply (Hafter y Hy). unfold indicator_key in Ey.
      rewrite Er in Ey. cbn [field_or] in Ey. now subst.
  - intros Hnone.
    destruct (last_assigned _ _ qid (answers_object h)) as [v|] eqn:E;
      [|reflexivity].
    apply last_assigned_some_id in E as (item & Hin & Hr).
    exfalso. exact (Hnone item Hin Hr).
Qed.

Lemma find_unique cid n cs col :
  NoDup (map collection_id cs) -> In col cs -> reaches cid n col = true ->
  find (reaches cid n) cs = Some col.
Proof.
  induction cs as [|c cs IH]; cbn [map find In]; [tauto|].
  intros Hnd [->|Hin] Hr; inversion Hnd; subst.
  - now rewrite Hr.
  - destruct (reaches cid n c) eqn:Ec; [|auto].
    exfalso. apply H1. unfold reaches in *.
    apply andb_true_iff in Hr as [Hr _]. apply andb_true_iff in Ec as [Ec _].
    apply String.eqb_eq in Hr, Ec. rewrite Ec, <- Hr. now apply in_map.
Qed.

Lemma resolved_storage_key qf p page col i q :
  free_of "_" p = true ->
  free_of "_" col.(collection_id) = true ->
  Dict.get qf p = Some page ->
  NoDup (map collection_id (collections_of page)) ->
  In col (collections_of page) ->
  0 <= i < 10 ^ Py.int_max_str_digits ->
  nth_error (questions_of col) (Z.to_nat i) = Some q ->
  resolved_id qf (answer_storage_key p col.(collection_id) i)
  = Some (field_or q.(question_id) (fallback_id col.(collection_id) i)).
Proof.
  intros Hp Hc Hget Hnd Hin [Hi Hmax] Hq.
  destruct (storage_key_ok p (collection_id col) i Hp Hc Hi) as [Eseg _].
  unfold resolved_id. rewrite Eseg. cbn [List.length Nat.ltb Nat.leb nth].
  rewrite int_str, Hget by lia.
  replace (0 <=? i) with true by (symmetry; lia).
  unfold target_question.
  rewrite (find_unique _ _ _ col Hnd Hin).
  - now rewrite Hq.
  - unfold reaches. rewrite String.eqb_refl. cbn [andb].
    assert ((Z.to_nat i < List.length (questions_of col))%nat)
      by (apply nth_error_Some; congruence).
    lia.
Qed.

Lemma scan_collections_found cs cid n a ind col qs q :
  NoDup (map collection_id cs) -> In col cs -> collection_id col = cid ->
  questions col = Some qs -> 0 <= n -> nth_error qs (Z.to_nat n) = Some q ->
  scan_collections cs cid n a ind
  = Ok (Dict.set ind (field_or q.(question_id) (fallback_id cid n))
                 (option_id_to_grade a.(option_id))).
Proof.
  intros Hnd Hin Hid Hqs Hn Hq.
  induction cs as [|c cs IH]; cbn [In map scan_collections] in *; [contradiction|].
  inversion Hnd as [|x l Hout Hnd']; subst x l.
  destruct Hin as [->|Hin].
  - rewrite Hid, String.eqb_refl, Hqs. cbn [field rbind].
    assert ((Z.to_nat n < List.length qs)%nat)
      by (apply nth_error_Some; congruence).
    replace (n <? Z.of_nat (List.length qs)) with true
      by (symmetry; apply Z.ltb_lt; lia).
    now rewrite (index_nth qs n q Hn Hq).
  - destruct (String.eqb_spec (collection_id c) cid) as [E|_]; [|now apply IH].
    exfalso. apply Hout. rewrite E, <- Hid. now apply in_map.
Qed.

(** X5. The key that [display_question] builds for question number
    [question_key] of a collection sends the loop body of the indicator
    pass to that very question: the record is scored under the question's
    id (or its fallback id) with the grade of its option. The page key and
    the collection id have no underscore, the collection ids of the page
    are distinct, and the number prints within the interpreter's limit of
    digits. *)
Theorem storage_key_resolves :
  forall (question_files : Dict.t page_data) (indicator_scores : Dict.t Z)
         (page_key : string) (page : page_data) (collections : list collection)
         (col : collection) (qs : list question) (question_key : Z)
         (q : question) (answer : answer_data),
    free_of "_" page_key = true ->
    free_of "_" col.(collection_id) = true ->
    Dict.get question_files page_key = Some page ->
    page.(question_collections) = Some collections ->
    NoDup (map collection_id collections) ->
    In col collections ->
    col.(questions) = Some qs ->
    0 <= question_key < 10 ^ Py.int_max_str_digits ->
    nth_error qs (Z.to_nat question_key) = Some q ->
    indicator_step question_files indicator_scores
      (answer_storage_key page_key col.(collection_id) question_key, answer)
    = Ok (Dict.set indicator_scores
            (field_or q.(question_id)
                      (fallback_id col.(collection_id) question_key))
            (option_id_to_grade answer.(option_id)))
    /\ _calculate_indicator_scores question_files
         [(answer_storage_key page_key col.(collection_id) question_key, answer)]
       = Ok [(field_or q.(question_id)
                       (fallback_id col.(collection_id) question_key),
              option_id_to_grade answer.(option_id))].
Proof.
  intros qf ind p page cs col qs i q a Hp Hc Hget Hcs Hnd Hin Hqs [Hi Hmax] Hq.
  destruct (storage_key_ok p (collection_id col) i Hp Hc Hi) as [Eseg _].
  assert (Estep : forall d,
             indicator_step qf d (answer_storage_key p (collection_id col) i, a)
             = Ok (Dict.set d (field_or q.(question_id)
                                        (fallback_id (collection_id col) i))
                            (option_id_to_grade a.(option_id)))).
  { intros d. unfold indicator_step. unfold segments in Eseg. rewrite Eseg.
    cbn [List.length Nat.ltb Nat.leb nth].
    rewrite int_str by lia. cbn [rbind]. rewrite Hget, Hcs. cbn [field rbind].
    now apply (scan_collections_found cs _ i a d col qs q). }
  split; [apply Estep|].
  unfold _calculate_indicator_scores. cbn [for_each]. rewrite Estep.
  reflexivity.
Qed.

(* ===================================================================== *)
(** * The keys of the score maps *)
(* ===================================================================== *)

Section LastWinsKeys.
Context {A V : Type} (key : A -> string) (val : A -> option V).

Lemma last_assigned_some_iff (k : string) (l : list A) :
  last_assigned key val k l <> None
  <-> exists x, In x l /\ key x = k /\ val x <> None.
Proof.
  induction l as [|y l IH]; cbn [last_assigned].
  - split; [congruence|intros (x & [] & _)].
  - destruct (last_assigned key val k l) as [v|].
    + split; [intros _|discriminate].
      destruct (proj1 IH) as (x & Hx & Hk & Hv); [discriminate|].
      exists x. split; [now right|auto].
    + destruct (String.eqb_spec (key y) k) as [E|Hne].
      * split.
        -- intros Hv. exists y. split; [now left|auto].
        -- intros (x & [<-|Hx] & Hk & Hv); [exact Hv|].
           exfalso. apply (proj2 IH); [|reflexivity]. now exists x.
      * split; [congruence|].
        intros (x & [<-|Hx] & Hk & Hv); [contradiction|].
        exfalso. apply (proj2 IH); [|reflexivity]. now exists x.
Qed.

Lemma keys_fold_assign (k : string) (l : list A) :
  In k (Dict.keys (fold_left (assign key val) l []))
  <-> exists x, In x l /\ key x = k /\ val x <> None.
Proof.
  rewrite <- last_assigned_some_iff.
  pose proof (get_fold_assign key val l [] k) as Hg. cbn [Dict.get] in Hg.
  pose proof (get_none_iff (fold_left (assign key val) l []) k) as Hn.
  destruct (last_assigned key val k l) as [v|].
  - split; [discriminate|]. intros _.
    destruct (in_dec string_dec k (Dict.keys (fold_left (assign key val) l [])))
      as [Hin|Hout]; [exact Hin|].
    apply Hn in Hout. congruence.
  - split; [|congruence]. intros Hin. exfalso. now apply (proj1 Hn).
Qed.

End LastWinsKeys.

Lemma scores_for_counted ind c :
  scores_for ind c <> []
  <-> exists q, In q (questions_of c) /\ counted ind q = true.
Proof.
  unfold scores_for, questions_of. rewrite question_scores_flat.
  induction (field_or (questions c) []) as [|[[qid|]] qs IH]; cbn [flat_map].
  - split; [congruence|intros (q & [] & _)].
  - unfold question_score at 1. cbn [question_id].
    destruct (negb (String.eqb qid "")) eqn:En;
      [destruct (Dict.get ind qid) as [s|] eqn:Eg|].
    + split; [intros _|discriminate].
      exists {| question_id := Some qid |}. split; [now left|].
      unfold counted, has_id, id_of, Dict.mem. cbn [question_id field_or].
      now rewrite En, Eg.
    + cbn [app]. rewrite IH. split.
      * intros (q & Hq & Hc). exists q. split; [now right|exact Hc].
      * intros (q & [<-|Hq] & Hc); [|now exists q].
        unfold counted, has_id, id_of, Dict.mem in Hc.
        cbn [question_id field_or] in Hc. rewrite En, Eg in Hc. discriminate.
    + cbn [app]. rewrite IH. split.
      * intros (q & Hq & Hc). exists q. split; [now right|exact Hc].
      * intros (q & [<-|Hq] & Hc); [|now exists q].
        unfold counted, has_id in Hc. cbn [question_id] in Hc.
        rewrite En in Hc. discriminate.
  - unfold question_score at 1. cbn [question_id app]. rewrite IH. split.
    + intros (q & Hq & Hc). exists q. split; [now right|exact Hc].
    + intros (q & [<-|Hq] & Hc); [|now exists q]. discriminate.
Qed.

Lemma criterion_value_some ind c :
  criterion_value ind c <> None <-> scores_for ind c <> [].
Proof.
  unfold criterion_value. destruct (scores_for ind c); split; congruence.
Qed.

Lemma value_value_some crit item :
  value_value crit item <> None
  <-> scored_collections crit (snd item) <> [].
Proof.
  unfold value_value. rewrite collection_scores_scored.
  unfold scores_of_collections.
  destruct (scored_collections crit (snd item)); cbn [map]; split; congruence.
Qed.

Lemma criterion_keys qf ind k :
  In k (Dict.keys (_calculate_criterion_scores qf ind))
  <-> exists c, In c (all_collections qf) /\ collection_id c = k
                /\ exists q, In q (questions_of c) /\ counted ind q = true.
Proof.
  rewrite criterion_scores_fold, keys_fold_assign. split.
  - intros (c & Hc & Hk & Hv). exists c. repeat split; try assumption.
    now apply scores_for_counted, criterion_value_some.
  - intros (c & Hc & Hk & Hq). exists c. repeat split; try assumption.
    now apply criterion_value_some, scores_for_counted.
Qed.

Lemma value_keys qf crit name :
  In name (Dict.keys (_calculate_value_scores qf crit))
  <-> exists page_key page,
        In (page_key, page) qf /\ value_name page_key page = name
        /\ scored_collections crit page <> [].
Proof.
  rewrite value_scores_fold, keys_fold_assign. split.
  - intros ([k page] & Hin & Hk & Hv). exists k, page.
    repeat split; try assumption. now apply value_value_some in Hv.
  - intros (k & page & Hin & Hk & Hv). exists (k, page).
    repeat split; try assumption. now apply value_value_some.
Qed.

Lemma keys_nil {V : Type} (d : Dict.t V) : Dict.keys d = [] <-> d = [].
Proof. destruct d; cbn; split; congruence. Qed.

Lemma value_empty_iff qf ind :
  _calculate_value_scores qf (_calculate_criterion_scores qf ind) = []
  <-> _calculate_criterion_scores qf ind = [].
Proof.
  split.
  - intros Hv.
    destruct (_calculate_criterion_scores qf ind) as [|[k s] crit] eqn:Ec;
      [reflexivity|].
    exfalso.
    assert (Hk : In k (Dict.keys (_calculate_criterion_scores qf ind)))
      by (rewrite Ec; now left).
    apply criterion_keys in Hk as (c & Hc & Hid & _).
    unfold all_collections in Hc. apply in_flat_map in Hc as ([pk page] & Hp & Hc).
    cbn [snd] in Hc.
    assert (Hn : In (value_name pk page)
                    (Dict.keys (_calculate_value_scores qf
                                  (_calculate_criterion_scores qf ind)))).
    { apply value_keys. exists pk, page. repeat split; try assumption.
      unfold scored_collections. intros Hnil.
      assert (Hf : In c (filter (fun c => Dict.mem (_calculate_criterion_scores qf ind)
                                            (collection_id c))
                                (collections_of page))).
      { apply filter_In. split; [assumption|].
        unfold Dict.mem. rewrite Hid, Ec. cbn [Dict.get].
        now rewrite String.eqb_refl. }
      rewrite Hnil in Hf. contradiction. }
    rewrite Ec, Hv in Hn. contradiction.
  - intros ->. apply value_scores_empty.
Qed.

(** X6. The criterion map has a key exactly for the ids of collections with
    a question that has a non-empty [question_id] found in the indicator
    map; the value map has a key exactly for the display names of pages
    with a collection in the criterion map; and the value map is empty
    exactly when the criterion map is. *)
Theorem score_map_keys :
  forall (h : heap) (sd : ScoreData),
    returns calculate_all_scores h = Ok sd ->
    (forall k : string,
        In k (Dict.keys (criterion_scores sd))
        <-> exists c, In c (all_collections (self_question_files h))
                      /\ collection_id c = k
                      /\ exists q, In q (questions_of c)
                                   /\ counted (indicator_scores sd) q = true)
    /\ (forall name : string,
           In name (Dict.keys (value_scores sd))
           <-> exists page_key page,
                 In (page_key, page) (self_question_files h)
                 /\ value_name page_key page = name
                 /\ scored_collections (criterion_scores sd) page <> [])
    /\ (value_scores sd = [] <-> criterion_scores sd = []).
Proof.
  intros h sd Hret. destruct (score_layers h sd Hret) as [Ec Ev].
  rewrite Ev, Ec. split; [|split].
  - intros k. apply criterion_keys.
  - intros name. apply value_keys.
  - apply value_empty_iff.
Qed.

(* ===================================================================== *)
(** * A collection id shared by two questionnaires *)
(* ===================================================================== *)

Lemma all_collections_app l1 l2 :
  all_collections (l1 ++ l2) = all_collections l1 ++ all_collections l2.
Proof. apply flat_map_app. Qed.

Lemma all_collections_cons k p l :
  all_collections ((k, p) :: l) = collections_of p ++ all_collections l.
Proof. reflexivity. Qed.

Lemma criterion_value_scored ind c :
  scores_for ind c <> [] ->
  criterion_value ind c = Some (mean_int (scores_for ind c)).
Proof.
  unfold criterion_value. destruct (scores_for ind c); [congruence|reflexivity].
Qed.

Lemma criterion_value_unscored ind c :
  scores_for ind c = [] -> criterion_value ind c = None.
Proof. unfold criterion_value. now intros ->. Qed.

Lemma collection_scores_app crit l1 l2 :
  collection_scores crit (l1 ++ l2)
  = collection_scores crit l1 ++ collection_scores crit l2.
Proof. rewrite !collection_scores_flat. apply flat_map_app. Qed.

Lemma collection_scores_cons crit c l :
  collection_scores crit (c :: l) = contribution crit c ++ collection_scores crit l.
Proof. now rewrite !collection_scores_flat. Qed.

(** The loop body of the value pass on a questionnaire with a collection
    that is in the criterion map: the entry of the map is found in the
    collected list, at the place of the collection, and the questionnaire
    gets its entry. *)
Lemma value_step_takes crit vs page_key page c s :
  In c (collections_of page) ->
  Dict.get crit (collection_id c) = Some s ->
  (exists before after,
      collections_of page = before ++ c :: after
      /\ collection_scores crit (collections_of page)
         = collection_scores crit before ++ s :: collection_scores crit after)
  /\ exists v,
       value_step crit vs (page_key, page)
       = Dict.set vs (value_name page_key page) v.
Proof.
  intros Hin Hget. destruct (in_split _ _ Hin) as (before & after & E).
  assert (Es : collection_scores crit (collections_of page)
               = collection_scores crit before ++ s :: collection_scores crit after).
  { rewrite E, collection_scores_app, collection_scores_cons.
    unfold contribution. now rewrite Hget. }
  split; [now exists before, after|].
  unfold value_step. fold (collections_of page). rewrite Es.
  destruct (collection_scores crit before ++ s :: collection_scores crit after)
    as [|x l] eqn:El; [destruct (collection_scores crit before); discriminate|].
  now eexists.
Qed.

(** C10. When collections with the same id occur in two questionnaires of
    the catalog and both have scored questions, the criterion map has
    exactly one entry for that id, holding the mean computed for the
    collection of the later questionnaire (the last one with a scored
    collection of that id); and for every questionnaire with a collection
    of that id, the value pass takes that same entry into the list it
    averages, at the place of the collection, and gives the questionnaire
    an entry of the value map. *)
Theorem shared_collection_id :
  forall (question_files : Dict.t page_data) (indicator : Dict.t Z)
         l1 k1 p1 l2 k2 p2 l3 (c1 c2 : collection),
    question_files = l1 ++ (k1, p1) :: l2 ++ (k2, p2) :: l3 ->
    In c1 (collections_of p1) ->
    In c2 (collections_of p2) ->
    collection_id c1 = collection_id c2 ->
    scores_for indicator c1 <> [] ->
    scores_for indicator c2 <> [] ->
    NoDup (map collection_id (collections_of p2)) ->
    (forall c, In c (all_collections l3) ->
               collection_id c = collection_id c2 -> scores_for indicator c = []) ->
    let criterion := _calculate_criterion_scores question_files indicator in
    let shared := mean_int (scores_for indicator c2) in
    Dict.get criterion (collection_id c2) = Some shared
    /\ count_occ string_dec (Dict.keys criterion) (collection_id c2) = 1%nat
    /\ forall page_key page c,
         In (page_key, page) question_files ->
         In c (collections_of page) ->
         collection_id c = collection_id c2 ->
         (exists before after,
             collections_of page = before ++ c :: after
             /\ collection_scores criterion (collections_of page)
                = collection_scores criterion before
                  ++ shared :: collection_scores criterion after)
         /\ (forall value_scores, exists v,
                value_step criterion value_scores (page_key, page)
                = Dict.set value_scores (value_name page_key page) v)
         /\ In (value_name page_key page)
               (Dict.keys (_calculate_value_scores question_files criterion)).
Proof.
  intros qf ind l1 k1 p1 l2 k2 p2 l3 c1 c2 -> H1 H2 Hid Hs1 Hs2 Hnd Hlast crit shared.
  assert (Hget : Dict.get crit (collection_id c2) = Some shared).
  { unfold crit, shared. rewrite criterion_scores_get.
    destruct (in_split _ _ H2) as (a & b & Ep2).
    rewrite all_collections_app, all_collections_cons, all_collections_app,
      all_collections_cons, Ep2.
    replace (all_collections l1 ++ collections_of p1 ++ all_collections l2
             ++ (a ++ c2 :: b) ++ all_collections l3)
      with ((all_collections l1 ++ collections_of p1 ++ all_collections l2 ++ a)
            ++ c2 :: (b ++ all_collections l3))
      by (now rewrite <- !app_assoc).
    apply last_assigned_split;
      [reflexivity | now apply criterion_value_scored |].
    intros y Hy Ey. apply in_app_iff in Hy as [Hy|Hy].
    - exfalso. rewrite Ep2, map_app in Hnd. simpl in Hnd.
      apply NoDup_remove_2 in Hnd. apply Hnd, in_or_app. right.
      rewrite <- Ey. now apply in_map.
    - apply criterion_value_unscored. now apply Hlast. }
  split; [exact Hget|]. split.
  - apply NoDup_count_occ'; [apply criterion_scores_wf|].
    destruct (in_dec string_dec (collection_id c2) (Dict.keys crit)) as [Hin|Hout];
      [exact Hin|].
    apply get_none_iff in Hout. congruence.
  - intros k page c Hp Hc Ec. rewrite <- Ec in Hget.
    split; [|split].
    + exact (proj1 (value_step_takes crit [] k page c shared Hc Hget)).
    + intros vs. exact (proj2 (value_step_takes crit vs k page c shared Hc Hget)).
    + apply value_keys. exists k, page. split; [exact Hp|]. split; [reflexivity|].
      unfold scored_collections. intros Hnil.
      assert (Hf : In c (filter (fun c => Dict.mem crit (collection_id c))
                                (collections_of page))).
      { apply filter_In. split; [exact Hc|]. unfold Dict.mem. now rewrite Hget. }
      rewrite Hnil in Hf. contradiction.
Qed.

Lemma shared_collection_id_witness :
  let criterion := _calculate_criterion_scores shared_catalog [("I1", 0); ("I2", 6)] in
  Dict.get criterion "X" = Some 6%Q
  /\ count_occ string_dec (Dict.keys criterion) "X" = 1%nat
  /\ In "One" (Dict.keys (_calculate_value_scores shared_catalog criterion))
  /\ In "Two" (Dict.keys (_calculate_value_scores shared_catalog criterion)).
Proof.
  destruct (shared_collection_id shared_catalog [("I1", 0); ("I2", 6)]
              [] "P1" (sample_page "One" [sample_collection "X" [sample_question "I1"]])
              [] "P2" (sample_page "Two" [sample_collection "X" [sample_question "I2"]])
              []
              (sample_collection "X" [sample_question "I1"])
              (sample_collection "X" [sample_question "I2"])
              eq_refl (or_introl eq_refl) (or_introl eq_refl) eq_refl)
    as (Hget & Hcount & Hvalue).
  - discriminate.
  - discriminate.
  - repeat constructor. simpl. tauto.
  - simpl. tauto.
  - split; [exact Hget|]. split; [exact Hcount|]. split.
    + exact (proj2 (proj2 (Hvalue "P1"
                (sample_page "One" [sample_collection "X" [sample_question "I1"]])
                (sample_collection "X" [sample_question "I1"])
                (or_introl eq_refl) (or_introl eq_refl) eq_refl))).
    + exact (proj2 (proj2 (Hvalue "P2"
                (sample_page "Two" [sample_collection "X" [sample_question "I2"]])
                (sample_collection "X" [sample_question "I2"])
                (or_intror (or_introl eq_refl)) (or_introl eq_refl) eq_refl))).
Defined.

(* ===================================================================== *)
(** * Questionnaires with the same display name *)
(* ===================================================================== *)

Lemma value_scores_wf qf crit : Dict.wf (_calculate_value_scores qf crit).
Proof. rewrite value_scores_fold. apply wf_fold_assign. constructor. Qed.

(** X19. The value map has one entry for a display name: the one that the
    value pass computes for the last questionnaire of that name with a
    collection in the criterion map, which is the entry that this
    questionnaire gets in a catalog of its own. Earlier questionnaires of
    the same name, and all questionnaires of other names, leave no trace
    in it. *)
Theorem value_entry_of_last_questionnaire :
  forall (question_files : Dict.t page_data) (criterion : Dict.t Q)
         (before : Dict.t page_data) (page_key : string) (page : page_data)
         (after : Dict.t page_data),
    question_files = before ++ (page_key, page) :: after ->
    scored_collections criterion page <> [] ->
    (forall k p, In (k, p) after ->
                 value_name k p = value_name page_key page ->
                 scored_collections criterion p = []) ->
    let value_scores := _calculate_value_scores question_files criterion in
    In (value_name page_key page) (Dict.keys value_scores)
    /\ count_occ string_dec (Dict.keys value_scores) (value_name page_key page) = 1%nat
    /\ Dict.get value_scores (value_name page_key page)
       = Dict.get (_calculate_value_scores [(page_key, page)] criterion)
                  (value_name page_key page).
Proof.
  intros qf crit before k page after -> Hscored Hafter vs.
  assert (Hsome : value_value crit (k, page) <> None)
    by now apply value_value_some.
  destruct (value_value crit (k, page)) as [v|] eqn:Ev; [|congruence].
  assert (Hget : Dict.get vs (value_name k page) = Some v).
  { unfold vs. rewrite value_scores_get.
    apply last_assigned_split; [reflexivity|exact Ev|].
    intros [k' p'] Hin Ename.
    destruct (value_value crit (k', p')) as [w|] eqn:Ew; [|reflexivity].
    exfalso.
    assert (Hw : value_value crit (k', p') <> None) by congruence.
    apply value_value_some in Hw. apply Hw.
    now apply (Hafter k' p'). }
  assert (Hin : In (value_name k page) (Dict.keys vs)).
  { destruct (in_dec string_dec (value_name k page) (Dict.keys vs)) as [H|H];
      [exact H|].
    apply get_none_iff in H. congruence. }
  split; [exact Hin|]. split.
  - apply NoDup_count_occ'; [apply value_scores_wf|exact Hin].
  - rewrite Hget, value_scores_get. cbn [last_assigned].
    unfold item_name at 1. cbn [fst snd]. now rewrite String.eqb_refl, Ev.
Qed.

Lemma value_entry_of_last_questionnaire_witness :
  let criterion : Dict.t Q := [("C1", 0%Q); ("C2", 6%Q)] in
  Dict.get (_calculate_value_scores same_title_catalog criterion) "T" = Some 6%Q
  /\ count_occ string_dec
       (Dict.keys (_calculate_value_scores same_title_catalog criterion)) "T" = 1%nat.
Proof.
  destruct (value_entry_of_last_questionnaire same_title_catalog
              [("C1", 0%Q); ("C2", 6%Q)]
              [("P1", sample_page "T" [sample_collection "C1" [sample_question "I1"]])]
              "P2" (sample_page "T" [sample_collection "C2" [sample_question "I2"]])
              [] eq_refl)
    as (_ & Hcount & Hget).
  - discriminate.
  - intros k p [].
  - split; [|exact Hcount]. etransitivity; [exact Hget|reflexivity].
Defined.

(* ===================================================================== *)
(** * The progress map *)
(* ===================================================================== *)

(** ** Prefixes *)

Lemma prefix_cons a s1 b s2 :
  String.prefix (String a s1) (String b s2) = Ascii.eqb a b && String.prefix s1 s2.
Proof.
  cbn [String.prefix]. destruct (ascii_dec a b) as [->|Hne].
  - now rewrite Ascii.eqb_refl.
  - apply Ascii.eqb_neq in Hne. now rewrite Hne.
Qed.

Lemma prefix_nil_l s : String.prefix "" s = true.
Proof. now destruct s. Qed.

Lemma prefix_trans s1 s2 s3 :
  String.prefix s1 s2 = true -> String.prefix s2 s3 = true ->
  String.prefix s1 s3 = true.
Proof.
  revert s2 s3. induction s1 as [|a s1 IH]; intros s2 s3;
    [intros _ _; apply prefix_nil_l|].
  destruct s2 as [|b s2]; [discriminate|]. destruct s3 as [|c s3]; [discriminate|].
  rewrite !prefix_cons, !andb_true_iff.
  intros [Hab H12] [Hbc H23]. apply Ascii.eqb_eq in Hab, Hbc. subst.
  split; [apply Ascii.eqb_refl|eauto].
Qed.

Lemma prefix_append p s1 s2 :
  String.prefix (p ++ s1)%string (p ++ s2)%string = String.prefix s1 s2.
Proof.
  induction p as [|a p IH]; [reflexivity|].
  cbn [String.append]. now rewrite prefix_cons, Ascii.eqb_refl.
Qed.

Lemma startswith_narrower k page_name c1 c2 :
  String.prefix c1 c2 = true ->
  Py.startswith k (page_name ++ "_" ++ c2)%string = true ->
  Py.startswith k (page_name ++ "_" ++ c1)%string = true.
Proof.
  unfold Py.startswith. intros H12. apply prefix_trans.
  now rewrite !prefix_append.
Qed.

Lemma filter_length_le {A : Type} (f g : A -> bool) (l : list A) :
  (forall x, In x l -> f x = true -> g x = true) ->
  (List.length (filter f l) <= List.length (filter g l))%nat.
Proof.
  induction l as [|x l IH]; intros H; cbn [filter]; [lia|].
  assert (IH' : (List.length (filter f l) <= List.length (filter g l))%nat)
    by (apply IH; intros y Hy; apply H; now right).
  destruct (f x) eqn:Ef.
  - rewrite (H x (or_introl eq_refl) Ef). cbn [List.length]. lia.
  - destruct (g x); cbn [List.length]; lia.
Qed.

(** X8. [get_progress_data] matches answer keys by prefix: when a
    collection id is a prefix of another one, every key counted for the
    longer id is counted for the shorter one as well. *)
Theorem prefix_counted_twice :
  forall (answers : Dict.t answer_data) (page_name c1 c2 : string),
    String.prefix c1 c2 = true ->
    (forall k, In k (Dict.keys answers) ->
               Py.startswith k (page_name ++ "_" ++ c2)%string = true ->
               Py.startswith k (page_name ++ "_" ++ c1)%string = true)
    /\ collection_answered answers page_name c2
       <= collection_answered answers page_name c1.
Proof.
  intros answers page_name c1 c2 H12. split.
  - intros k _. now apply startswith_narrower.
  - unfold collection_answered. apply inj_le. apply filter_length_le.
    intros k _. now apply startswith_narrower.
Qed.

(** ** Errors and keys of the progress map *)

Lemma progress_collections_raise answers page_name cs counts :
  forallb has_questions cs = false ->
  for_each (progress_collection_step answers page_name) cs counts = Raise KeyError.
Proof.
  revert counts. induction cs as [|c cs IH]; intros [t a]; cbn [forallb for_each];
    [discriminate|].
  unfold progress_collection_step at 1, has_questions at 1.
  destruct (questions c) as [qs|]; [|reflexivity].
  cbn [field rbind andb]. apply IH.
Qed.

Lemma progress_page_raise answers state page_name page :
  conformant_page page = false ->
  progress_page_step answers state (page_name, page) = Raise KeyError.
Proof.
  destruct state as [[pd ta] aa]. unfold conformant_page, progress_page_step.
  destruct (question_collections page) as [cs|]; [|reflexivity].
  intros H. cbn [field rbind]. now rewrite progress_collections_raise.
Qed.

Lemma progress_pages_raise answers qf state :
  conformant qf = false ->
  for_each (progress_page_step answers) qf state = Raise KeyError.
Proof.
  unfold conformant. revert state.
  induction qf as [|[k page] qf IH]; intros [[pd ta] aa]; cbn [forallb for_each snd];
    [discriminate|].
  destruct (conformant_page page) eqn:Ep; cbn [andb].
  - rewrite progress_page_run by assumption. cbn [rbind]. apply IH.
  - intros _. now rewrite progress_page_raise.
Qed.

Lemma keys_fold_total {A V : Type} (key : A -> string) (f : A -> V)
    (l : list A) (d : Dict.t V) :
  NoDup (Dict.keys d ++ map key l) ->
  Dict.keys (fold_left (assign key (fun x => Some (f x))) l d)
  = Dict.keys d ++ map key l.
Proof.
  revert d. induction l as [|x l IH]; intros d Hnd; cbn [fold_left map].
  - now rewrite app_nil_r.
  - assert (Ek : Dict.keys (assign key (fun x => Some (f x)) d x)
                 = Dict.keys d ++ [key x]).
    { unfold assign. rewrite keys_set. unfold Dict.mem.
      destruct (Dict.get d (key x)) eqn:E; [|reflexivity].
      exfalso. apply NoDup_remove_2 in Hnd. apply Hnd.
      apply in_or_app. left.
      destruct (in_dec string_dec (key x) (Dict.keys d)) as [Hin|Hout];
        [exact Hin|].
      apply get_none_iff in Hout. congruence. }
    rewrite IH; rewrite Ek, <- app_assoc; [reflexivity|exact Hnd].
Qed.

Lemma values_fold_assign {A V : Type} (P : V -> Prop) (key : A -> string)
    (val : A -> option V) (l : list A) (d : Dict.t V) :
  Forall P (Dict.values d) ->
  (forall x v, In x l -> val x = Some v -> P v) ->
  Forall P (Dict.values (fold_left (assign key val) l d)).
Proof.
  revert d. induction l as [|x l IH]; intros d Hd Hl; cbn [fold_left];
    [exact Hd|].
  apply IH; [|intros y v Hy; apply Hl; now right].
  unfold assign. destruct (val x) as [v|] eqn:E; [|exact Hd].
  apply values_set; [exact Hd|]. apply (Hl x v); [now left|exact E].
Qed.

Lemma sumZ_nonneg {A : Type} (f : A -> Z) (l : list A) :
  (forall x, In x l -> 0 <= f x) -> 0 <= sumZ (map f l).
Proof.
  induction l as [|x l IH]; intros H; cbn [map sumZ fold_right]; [lia|].
  fold (sumZ (map f l)).
  pose proof (H x (or_introl eq_refl)).
  assert (0 <= sumZ (map f l)) by (apply IH; intros y Hy; apply H; now right).
  lia.
Qed.

Lemma sumZ_le {A : Type} (f g : A -> Z) (l : list A) :
  (forall x, In x l -> f x <= g x) -> sumZ (map f l) <= sumZ (map g l).
Proof.
  induction l as [|x l IH]; intros H; cbn [map sumZ fold_right]; [lia|].
  fold (sumZ (map f l)). fold (sumZ (map g l)).
  pose proof (H x (or_introl eq_refl)).
  assert (sumZ (map f l) <= sumZ (map g l))
    by (apply IH; intros y Hy; apply H; now right).
  lia.
Qed.

Lemma collection_answered_nonneg answers page_name cid :
  0 <= collection_answered answers page_name cid.
Proof. unfold collection_answered. lia. Qed.

Lemma ratio_nonneg a t : 0 <= a -> (0 <= ratio a t)%Q.
Proof.
  intros Ha. unfold ratio. destruct (0 <? t) eqn:Et; [|discriminate].
  unfold Py.truediv. rewrite Qred_correct.
  apply Qle_shift_div_l.
  - change 0%Q with (inject_Z 0). rewrite <- Zlt_Qlt. lia.
  - rewrite Qmult_0_l. change 0%Q with (inject_Z 0). now rewrite <- Zle_Qle.
Qed.

Lemma ratio_at_most_one a t : a <= t -> (ratio a t <= 1)%Q.
Proof.
  intros Hat. unfold ratio. destruct (0 <? t) eqn:Et; [|discriminate].
  unfold Py.truediv. rewrite Qred_correct.
  apply Qle_shift_div_r.
  - change 0%Q with (inject_Z 0). rewrite <- Zlt_Qlt. lia.
  - rewrite Qmult_1_l. now rewrite <- Zle_Qle.
Qed.

Lemma page_total_nonneg page : 0 <= page_total page.
Proof. unfold page_total. apply sumZ_nonneg. intros c _. lia. Qed.

Lemma page_answered_nonneg answers page_name page :
  0 <= page_answered answers page_name page.
Proof.
  unfold page_answered. apply sumZ_nonneg. intros c _.
  apply collection_answered_nonneg.
Qed.

Lemma progress_data_returned answers qf :
  conformant qf = true ->
  rbind (for_each (progress_page_step answers) qf ([], 0, 0))
        (fun state =>
           Ok (Dict.set (fst (fst state)) "overall"
                        {| total := snd (fst state);
                           answered := snd state;
                           progress := ratio (snd state) (snd (fst state)) |}))
  = Ok (Dict.set (fold_left (assign fst (stats_value answers)) qf [])
                 "overall" (overall_stats qf answers)).
Proof.
  intros Hc. rewrite progress_pages_run by assumption. reflexivity.
Qed.

(** X9. [get_progress_data] raises [KeyError] exactly for a catalog that is
    not conformant, whatever the answers; otherwise its map has the page
    keys in catalog order, followed by "overall" unless that is a page key,
    and no count or ratio in it is negative. *)
Theorem progress_map_shape :
  forall h : heap,
    (conformant (self_question_files h) = false ->
     returns get_progress_data h = Raise KeyError)
    /\ (conformant (self_question_files h) = true ->
        Dict.wf (self_question_files h) ->
        exists progress_data,
          returns get_progress_data h = Ok progress_data
          /\ Dict.keys progress_data = progress_keys (self_question_files h)
          /\ Forall (fun e => 0 <= total e /\ 0 <= answered e /\ (0 <= progress e)%Q)
                    (Dict.values progress_data)).
Proof.
  intros h. unfold returns. rewrite get_progress_data_run. cbn [fst]. split.
  - intros Hc. now rewrite progress_pages_raise.
  - intros Hc Hwf. rewrite progress_data_returned by assumption.
    eexists. split; [reflexivity|].
    assert (Ek : Dict.keys (fold_left (assign fst (stats_value (answers_object h)))
                              (self_question_files h) [])
                 = Dict.keys (self_question_files h))
      by (unfold stats_value; now rewrite keys_fold_total).
    split.
    + rewrite keys_set, Ek. unfold progress_keys, Dict.mem.
      destruct (Dict.get (fold_left _ _ _) "overall") eqn:E1;
        destruct (Dict.get (self_question_files h) "overall") eqn:E2;
        try reflexivity; exfalso.
      * apply get_none_iff in E2. rewrite <- Ek in E2. apply get_none_iff in E2.
        congruence.
      * apply get_none_iff in E1. rewrite Ek in E1. apply get_none_iff in E1.
        congruence.
    + apply values_set.
      * apply values_fold_assign; [constructor|].
        intros [k page] v _ [= <-]. cbn [page_stats total answered progress fst snd].
        repeat split.
        -- apply page_total_nonneg.
        -- apply page_answered_nonneg.
        -- apply ratio_nonneg, page_answered_nonneg.
      * cbn [overall_stats total answered progress].
        assert (Ha : 0 <= sumZ (map (fun item : string * page_data =>
                                       page_answered (answers_object h)
                                         (fst item) (snd item))
                                    (self_question_files h)))
          by (apply sumZ_nonneg; intros x _; apply page_answered_nonneg).
        repeat split.
        -- apply sumZ_nonneg. intros x _. apply page_total_nonneg.
        -- exact Ha.
        -- now apply ratio_nonneg.
Qed.

(* ===================================================================== *)
(** * Progress of answers written by the presentation layer *)
(* ===================================================================== *)

(** ** Keys of the presentation layer under a collection prefix *)

Lemma prefix_before_underscore c c' s :
  free_of "_" c = true ->
  String.prefix c (c' ++ String "_" s)%string = true ->
  String.prefix c c' = true.
Proof.
  revert c'. induction c as [|a c IH]; intros c' Hc;
    [intros _; apply prefix_nil_l|].
  cbn [free_of] in Hc. apply andb_true_iff in Hc as [Ha Hc].
  apply negb_true_iff in Ha.
  destruct c' as [|b c']; cbn [String.append]; rewrite !prefix_cons.
  - rewrite Ha. discriminate.
  - rewrite !andb_true_iff. intros [Hab H]. split; [exact Hab|now apply IH].
Qed.

Lemma prefix_same_page p p' c rest :
  free_of "_" p = true -> free_of "_" p' = true ->
  String.prefix (p ++ String "_" c)%string (p' ++ String "_" rest)%string = true ->
  p = p' /\ String.prefix c rest = true.
Proof.
  revert p'. induction p as [|a p IH]; intros p' Hp Hp'.
  - destruct p' as [|b p']; cbn [String.append]; rewrite prefix_cons.
    + rewrite Ascii.eqb_refl. cbn [andb]. now split.
    + cbn [free_of] in Hp'. apply andb_true_iff in Hp' as [Hb _].
      apply negb_true_iff in Hb. rewrite Ascii.eqb_sym, Hb. discriminate.
  - cbn [free_of] in Hp. apply andb_true_iff in Hp as [Ha Hp].
    apply negb_true_iff in Ha.
    destruct p' as [|b p']; cbn [String.append]; rewrite prefix_cons.
    + rewrite Ha. discriminate.
    + cbn [free_of] in Hp'. apply andb_true_iff in Hp' as [_ Hp'].
      rewrite andb_true_iff. intros [Hab H]. apply Ascii.eqb_eq in Hab.
      destruct (IH p' Hp Hp' H) as [-> Hc]. subst. now split.
Qed.

Lemma written_under_prefix p c p' c' i :
  free_of "_" p = true -> free_of "_" p' = true -> free_of "_" c = true ->
  Py.startswith (answer_storage_key p' c' i) (p ++ "_" ++ c)%string = true ->
  p = p' /\ String.prefix c c' = true.
Proof.
  intros Hp Hp' Hc. unfold Py.startswith, answer_storage_key.
  change (p ++ "_" ++ c)%string with (p ++ String "_" c)%string.
  change (p' ++ "_" ++ c' ++ "_" ++ Py.str i)%string
    with (p' ++ String "_" (c' ++ String "_" (Py.str i)))%string.
  intros H. destruct (prefix_same_page _ _ _ _ Hp Hp' H) as [-> H'].
  split; [reflexivity|]. now apply prefix_before_underscore in H'.
Qed.

Lemma NoDup_filter {A : Type} (f : A -> bool) (l : list A) :
  NoDup l -> NoDup (filter f l).
Proof.
  induction 1 as [|x l Hx Hl IH]; cbn [filter]; [constructor|].
  destruct (f x); [|exact IH]. constructor; [|exact IH].
  intros Hin. apply filter_In in Hin. tauto.
Qed.

Lemma collection_answered_bound qf answers page_key page col :
  Dict.wf answers -> plain_ids qf ->
  (forall k, In k (Dict.keys answers) -> written_key qf k) ->
  Dict.get qf page_key = Some page -> In col (collections_of page) ->
  collection_answered answers page_key (collection_id col)
  <= Z.of_nat (List.length (questions_of col)).
Proof.
  intros Hwf Hplain Hkeys Hget Hcol. unfold collection_answered.
  apply inj_le.
  set (n := List.length (questions_of col)).
  set (slots := map (fun i => answer_storage_key page_key (collection_id col)
                                 (Z.of_nat i)) (seq 0 n)).
  replace n with (List.length slots) by (unfold slots; now rewrite length_map, length_seq).
  apply NoDup_incl_length; [now apply NoDup_filter|].
  intros k Hk. apply filter_In in Hk as [Hin Hstart].
  destruct (Hkeys k Hin) as (p' & page' & col' & i & -> & Hget' & Hcol' & Hi).
  destruct (Hplain page_key page (get_some_in _ _ _ Hget)) as (Hp & Hids & Hfree).
  destruct (Hplain p' page' (get_some_in _ _ _ Hget')) as (Hp' & Hids' & _).
  destruct (written_under_prefix _ _ _ _ _ Hp Hp' (Hids col Hcol) Hstart)
    as [<- Hpre].
  assert (page' = page) by congruence. subst page'.
  assert (col = col') by (now apply Hfree). subst col'.
  unfold slots. apply in_map_iff. exists (Z.to_nat i). split.
  - now rewrite Z2Nat.id by lia.
  - apply in_seq. unfold n. lia.
Qed.

Lemma page_answered_bound qf answers page_key page :
  Dict.wf answers -> plain_ids qf ->
  (forall k, In k (Dict.keys answers) -> written_key qf k) ->
  Dict.get qf page_key = Some page ->
  page_answered answers page_key page <= page_total page.
Proof.
  intros Hwf Hplain Hkeys Hget. unfold page_answered, page_total.
  apply sumZ_le. intros c Hc.
  now apply (collection_answered_bound qf answers page_key page c).
Qed.

(** X10. When page keys and collection ids have no underscore, no
    collection id of a page is a prefix of another, and every answer key is
    one that [display_question] writes for a question of the catalog, then
    in every entry of the progress map [answered] is at most [total] and
    the ratio lies in [0, 1]. *)
Theorem progress_at_most_one :
  forall h : heap,
    conformant (self_question_files h) = true ->
    Dict.wf (self_question_files h) ->
    Dict.wf (answers_object h) ->
    plain_ids (self_question_files h) ->
    (forall k, In k (Dict.keys (answers_object h)) ->
               written_key (self_question_files h) k) ->
    exists progress_data,
      returns get_progress_data h = Ok progress_data
      /\ Forall (fun e => 0 <= answered e <= total e /\ (0 <= progress e <= 1)%Q)
                (Dict.values progress_data).
Proof.
  intros h Hc Hwf Hwfa Hplain Hkeys.
  unfold returns. rewrite get_progress_data_run. cbn [fst].
  rewrite progress_data_returned by assumption.
  eexists. split; [reflexivity|].
  assert (Hpage : forall k page, In (k, page) (self_question_files h) ->
                    page_answered (answers_object h) k page <= page_total page).
  { intros k page Hin. apply (page_answered_bound (self_question_files h));
      try assumption. now apply in_get. }
  apply values_set.
  - apply values_fold_assign; [constructor|].
    intros [k page] v Hin [= <-]. cbn [page_stats total answered progress fst snd].
    pose proof (Hpage k page Hin).
    pose proof (page_answered_nonneg (answers_object h) k page).
    repeat split; try assumption.
    + now apply ratio_nonneg.
    + now apply ratio_at_most_one.
  - cbn [overall_stats total answered progress].
    set (a := sumZ (map (fun item : string * page_data =>
                           page_answered (answers_object h) (fst item) (snd item))
                        (self_question_files h))).
    set (t := sumZ (map (fun item : string * page_data => page_total (snd item))
                        (self_question_files h))).
    assert (Ha : 0 <= a)
      by (apply sumZ_nonneg; intros x _; apply page_answered_nonneg).
    assert (Hat : a <= t)
      by (apply sumZ_le; intros [k page] Hin; now apply Hpage).
    repeat split; try assumption.
    + now apply ratio_nonneg.
    + now apply ratio_at_most_one.
Qed.

(* ===================================================================== *)
(** * Session state and display_question *)
(* ===================================================================== *)

(** ** initialize_session_state *)

(** X11. [initialize_session_state] keeps every entry that is present,
    gives a missing one its default, and changes nothing when run again. *)
Theorem initialize_session_state_keeps :
  forall s : session_state,
    current_question (initialize_session_state s)
    = Some (field_or (current_question s) [])
    /\ answers (initialize_session_state s) = Some (field_or (answers s) [])
    /\ current_page (initialize_session_state s)
       = Some (field_or (current_page s) None)
    /\ initialize_session_state (initialize_session_state s)
       = initialize_session_state s.
Proof.
  intros [[cq|] [a|] [p|]]; repeat split; reflexivity.
Qed.

(** ** display_question *)

Lemma option_table_mapping options :
  forall s o,
    Dict.get (snd (option_table options)) s = Some o ->
    In o options /\ offered o = true /\ display_text o = s.
Proof.
  unfold option_table.
  assert (G : forall state,
             (forall s o, Dict.get (snd state) s = Some o ->
                          In o options /\ offered o = true /\ display_text o = s) ->
             forall l, incl l options ->
             forall s o, Dict.get (snd (fold_left option_step l state)) s = Some o ->
                         In o options /\ offered o = true /\ display_text o = s).
  { intros state Hs l. revert state Hs.
    induction l as [|x l IH]; intros state Hs Hl; cbn [fold_left]; [exact Hs|].
    apply IH; [|intros y Hy; apply Hl; now right].
    intros s o. destruct state as [opts mapping]. unfold option_step.
    destruct (offered x) eqn:Ex; [|apply Hs]. cbn [snd].
    destruct (String.eqb_spec (display_text x) s) as [<-|Hne].
    - rewrite get_set_same. intros [= <-].
      repeat split; [apply Hl; now left|exact Ex].
    - rewrite get_set_other by assumption. apply (Hs s o). }
  apply (G ([], [])); [cbn; discriminate|apply incl_refl].
Qed.

Lemma option_table_offered options :
  forall o, In o options -> offered o = true ->
            exists o', Dict.get (snd (option_table options)) (display_text o) = Some o'
                       /\ fst (option_table options) <> [].
Proof.
  unfold option_table.
  assert (G : forall l state o,
             (In o l \/ (Dict.get (snd state) (display_text o) <> None
                         /\ fst state <> [])) ->
             offered o = true ->
             Dict.get (snd (fold_left option_step l state)) (display_text o) <> None
             /\ fst (fold_left option_step l state) <> []).
  { induction l as [|x l IH]; intros state o H Ho; cbn [fold_left].
    - destruct H as [[]|H]. exact H.
    - apply IH; [|exact Ho]. destruct state as [opts mapping].
      unfold option_step. destruct (offered x) eqn:Ex; cbn [fst snd].
      + destruct (String.eqb_spec (display_text x) (display_text o)) as [E|Hne].
        * right. rewrite E, get_set_same. split; [discriminate|].
          now destruct opts.
        * destruct H as [[->|Hin]|[Hg Hn]]; [congruence|now left|].
          right. rewrite get_set_other by assumption. split; [exact Hg|].
          now destruct opts.
      + destruct H as [[->|Hin]|H]; [congruence|now left|now right]. }
  intros o Hin Ho. destruct (G options ([], []) o (or_introl Hin) Ho) as [Hg Hn].
  destruct (Dict.get _ (display_text o)) as [o'|]; [|congruence].
  exists o'. split; [reflexivity|exact Hn].
Qed.

Lemma display_question_ok q i p c selected sa after :
  display_question q i p c selected sa = Ok after ->
  q.(the_question).(question_id) <> None
  /\ (forall k, k <> answer_storage_key p c i ->
                Dict.get after k = Dict.get sa k)
  /\ (after = sa
      \/ exists o, In o (field_or q.(answer_options) [])
                   /\ offered o = true
                   /\ selected = Some (display_text o)
                   /\ after = Dict.set sa (answer_storage_key p c i) o).
Proof.
  unfold display_question.
  destruct (question_text q) as [t|]; cbn [field rbind]; [|discriminate].
  destruct (question_id (the_question q)) as [qid|]; cbn [field rbind];
    [|discriminate].
  intros H. split; [discriminate|].
  assert (Hsame : after = sa ->
            (forall k, k <> answer_storage_key p c i ->
                       Dict.get after k = Dict.get sa k)
            /\ (after = sa
                \/ exists o, In o (field_or (answer_options q) [])
                             /\ offered o = true
                             /\ selected = Some (display_text o)
                             /\ after = Dict.set sa (answer_storage_key p c i) o))
    by (intros ->; split; [reflexivity|now left]).
  destruct (field_or (answer_options q) []) as [|x l] eqn:Eo;
    [injection H as <-; now apply Hsame|].
  rewrite <- Eo in *.
  pose proof (option_table_mapping (field_or (answer_options q) [])) as Hmap.
  destruct (option_table (field_or (answer_options q) [])) as [opts mapping].
  cbn [snd] in Hmap.
  destruct opts as [|d ds]; [injection H as <-; now apply Hsame|].
  destruct selected as [s|]; [|injection H as <-; now apply Hsame].
  destruct (negb (String.eqb s "")); [|injection H as <-; now apply Hsame].
  unfold Dict.getitem in H.
  destruct (Dict.get mapping s) as [o|] eqn:Eg; cbn [rbind] in H; [|discriminate].
  injection H as <-. destruct (Hmap s o Eg) as (Hin & Hoff & <-). split.
  - intros k Hk. apply get_set_other. congruence.
  - right. exists o. repeat split; assumption.
Qed.

Lemma display_question_selected q i p c sa o :
  q.(question_text) <> None ->
  q.(the_question).(question_id) <> None ->
  In o (field_or q.(answer_options) []) ->
  offered o = true ->
  exists o',
    In o' (field_or q.(answer_options) [])
    /\ display_text o' = display_text o
    /\ display_question q i p c (Some (display_text o)) sa
       = Ok (Dict.set sa (answer_storage_key p c i) o').
Proof.
  unfold display_question.
  intros Ht Hid Hin Hoff.
  destruct (question_text q) as [t|]; [|congruence].
  destruct (question_id (the_question q)) as [qid|]; [|congruence].
  cbn [field rbind].
  destruct (field_or (answer_options q) []) as [|x l] eqn:Eo; [contradiction|].
  rewrite <- Eo in *.
  destruct (option_table_offered _ o Hin Hoff) as (o' & Hg & Hn).
  pose proof (option_table_mapping _ _ _ Hg) as (Hin' & _ & Hd).
  destruct (option_table (field_or (answer_options q) [])) as [opts mapping].
  cbn [fst snd] in *.
  destruct opts as [|d ds]; [congruence|].
  replace (negb (String.eqb (display_text o) "")) with true by reflexivity.
  unfold Dict.getitem. rewrite Hg. cbn [rbind]. exists o'. repeat split; assumption.
Qed.

(** X12. When [display_question] returns, the question has a
    [question_id], every entry of the answers other than the one under the
    storage key is as before, and that one is either untouched or holds an
    option of the question with a non-blank text whose display text is the
    selected one. Conversely, selecting the display text of such an option
    stores an option with that display text. *)
Theorem display_question_stores :
  forall (q : displayed_question) (question_key : Z) (page_key cid : string)
         (selected : option string) (session_answers : Dict.t answer_data),
    (forall after,
        display_question q question_key page_key cid selected session_answers
        = Ok after ->
        q.(the_question).(question_id) <> None
        /\ (forall k, k <> answer_storage_key page_key cid question_key ->
                      Dict.get after k = Dict.get session_answers k)
        /\ (after = session_answers
            \/ exists o, In o (field_or q.(answer_options) [])
                         /\ offered o = true
                         /\ selected = Some (display_text o)
                         /\ after = Dict.set session_answers
                                      (answer_storage_key page_key cid question_key) o))
    /\ (forall o,
           q.(question_text) <> None ->
           q.(the_question).(question_id) <> None ->
           In o (field_or q.(answer_options) []) ->
           offered o = true ->
           selected = Some (display_text o) ->
           exists o',
             display_text o' = display_text o
             /\ display_question q question_key page_key cid selected session_answers
                = Ok (Dict.set session_answers
                               (answer_storage_key page_key cid question_key) o')).
Proof.
  intros q i p c selected sa. split.
  - intros after. apply display_question_ok.
  - intros o Ht Hid Hin Hoff ->.
    destruct (display_question_selected q i p c sa o Ht Hid Hin Hoff)
      as (o' & _ & Hd & Hr).
    now exists o'.
Qed.

(* ===================================================================== *)
(** * Navigation in a collection *)
(* ===================================================================== *)

(** ** display_collection *)

Lemma display_question_raises q i p c selected sa e :
  display_question q i p c selected sa = Raise e -> e = KeyError.
Proof.
  unfold display_question.
  destruct (question_text q) as [t|]; cbn [field rbind]; [|congruence].
  destruct (question_id (the_question q)) as [qid|]; cbn [field rbind];
    [|congruence].
  destruct (field_or (answer_options q) []) as [|x l]; [discriminate|].
  destruct (option_table (x :: l)) as [opts mapping].
  destruct opts as [|d ds]; [discriminate|].
  destruct selected as [s|]; [|discriminate].
  destruct (negb (String.eqb s "")); [|discriminate].
  unfold Dict.getitem. destruct (Dict.get mapping s); cbn [rbind]; congruence.
Qed.

Lemma shown_progress_range i total :
  0 <= i < total -> (0 < shown_progress i total <= 1)%Q.
Proof.
  intros [H0 Ht]. unfold shown_progress, Py.truediv. rewrite Qred_correct.
  assert (Hpos : (0 < inject_Z total)%Q)
    by (change 0%Q with (inject_Z 0); rewrite <- Zlt_Qlt; lia).
  split.
  - apply Qlt_shift_div_l; [exact Hpos|]. rewrite Qmult_0_l.
    change 0%Q with (inject_Z 0). rewrite <- Zlt_Qlt. lia.
  - apply Qle_shift_div_r; [exact Hpos|]. rewrite Qmult_1_l.
    rewrite <- Zle_Qle. lia.
Qed.

(** X13. [display_collection] keeps the question pointer of its collection
    inside the question list, whatever is pressed: it never raises
    [IndexError], leaves the pointers of other collections alone, and the
    fraction shown as progress lies in (0, 1]. *)
Theorem navigation_stays_in_range :
  forall (c : displayed_collection) (page_key : string) (input : user_input)
         (s : session),
    pointer_in_range c page_key s ->
    pointer_in_range c page_key (snd (display_collection c page_key input s))
    /\ fst (display_collection c page_key input s) <> Raised IndexError
    /\ (forall k, k <> collection_key page_key c.(shown_id) ->
                  Dict.get (pointers (snd (display_collection c page_key input s))) k
                  = Dict.get (pointers s) k)
    /\ (forall i,
           Dict.get (pointers (snd (display_collection c page_key input s)))
                    (collection_key page_key c.(shown_id)) = Some i ->
           (0 < shown_progress i
                  (Z.of_nat (List.length (field_or c.(shown_questions) []))) <= 1)%Q).
Proof.
  intros c page_key input s Hs.
  assert (Hgoal :
    pointer_in_range c page_key (snd (display_collection c page_key input s))
    /\ fst (display_collection c page_key input s) <> Raised IndexError
    /\ (forall k, k <> collection_key page_key c.(shown_id) ->
                  Dict.get (pointers (snd (display_collection c page_key input s))) k
                  = Dict.get (pointers s) k)).
  { unfold display_collection.
    destruct (collection_title c) as [title|];
      [|split; [exact Hs|split; [discriminate|reflexivity]]].
    destruct (collection_description c) as [description|];
      [|split; [exact Hs|split; [discriminate|reflexivity]]].
    destruct (shown_questions c) as [questions|] eqn:Eq;
      [|split; [exact Hs|split; [discriminate|reflexivity]]].
    set (total := Z.of_nat (List.length questions)).
    destruct (total =? 0) eqn:Et;
      [split; [exact Hs|split; [discriminate|reflexivity]]|].
    apply Z.eqb_neq in Et.
    set (key := collection_key page_key (shown_id c)).
    set (pointers1 := if Dict.mem (pointers s) key then pointers s
                      else Dict.set (pointers s) key 0).
    set (idx := Dict.get_default pointers1 key 0).
    assert (Hp1 : Dict.get pointers1 key = Some idx /\ 0 <= idx < total).
    { unfold idx, pointers1, Dict.get_default, Dict.mem.
      destruct (Dict.get (pointers s) key) as [i|] eqn:Eg.
      - rewrite Eg. split; [reflexivity|].
        pose proof (Hs i Eg) as Hi. rewrite Eq in Hi. exact Hi.
      - rewrite get_set_same. split; [reflexivity|]. unfold total in *. lia. }
    destruct Hp1 as [Eidx Hidx].
    assert (Hframe1 : forall k, k <> key ->
                                Dict.get pointers1 k = Dict.get (pointers s) k).
    { intros k Hk. unfold pointers1. destruct (Dict.mem (pointers s) key);
        [reflexivity|]. apply get_set_other. congruence. }
    assert (Hin1 : forall p', (forall i, Dict.get p' key = Some i -> 0 <= i < total) ->
                     forall r, pointer_in_range c page_key
                                 {| pointers := p'; recorded := r |}).
    { intros p' Hp' r i Hi. cbn [pointers] in Hi. rewrite Eq. cbn [field_or].
      now apply Hp'. }
    assert (Hkeep : forall i, Dict.get pointers1 key = Some i -> 0 <= i < total)
      by (intros i Hi; rewrite Eidx in Hi; injection Hi as <-; exact Hidx).
    destruct (index_in_bounds questions idx Hidx) as [q ->].
    destruct (display_question q idx page_key (shown_id c) (radio_value input)
                               (recorded s)) as [recorded1|e] eqn:Ed.
    - destruct ((0 <? idx) && previous_pressed input) eqn:Eprev;
        [|destruct ((idx <? total - 1) && next_pressed input) eqn:Enext];
        cbn [fst snd pointers]; (split; [|split; [discriminate|]]).
      + apply Hin1. intros i. rewrite get_set_same. intros [= <-].
        apply andb_true_iff in Eprev as [Hpos _]. lia.
      + intros k Hk. rewrite get_set_other by congruence.
        now apply Hframe1.
      + apply Hin1. intros i. rewrite get_set_same. intros [= <-].
        apply andb_true_iff in Enext as [Hlt _]. lia.
      + intros k Hk. rewrite get_set_other by congruence.
        now apply Hframe1.
      + now apply Hin1.
      + intros k Hk. now apply Hframe1.
    - cbn [fst snd pointers]. split; [|split].
      + now apply Hin1.
      + apply display_question_raises in Ed. subst e. discriminate.
      + intros k Hk. now apply Hframe1. }
  destruct Hgoal as (Hin & Hout & Hframe).
  split; [exact Hin|]. split; [exact Hout|]. split; [exact Hframe|].
  intros i Hi. apply shown_progress_range. now apply Hin.
Qed.

(* ===================================================================== *)
(** * Answering, resetting, listing *)
(* ===================================================================== *)

(** ** An answer given on a question page, then scored *)

Lemma injective_on_list {A B : Type} (f : A -> B) (l : list A) (x y : A) :
  NoDup (map f l) -> In x l -> In y l -> f x = f y -> x = y.
Proof.
  induction l as [|a l IH]; cbn [map In]; [tauto|].
  intros Hnd Hx Hy E. inversion Hnd; subst.
  destruct Hx as [->|Hx], Hy as [->|Hy]; auto.
  - exfalso. apply H1. rewrite E. now apply in_map.
  - exfalso. apply H1. rewrite <- E. now apply in_map.
Qed.

Lemma keys_set_incl {V : Type} (d : Dict.t V) k v x :
  In x (Dict.keys (Dict.set d k v)) -> x = k \/ In x (Dict.keys d).
Proof.
  rewrite keys_set. destruct (Dict.mem d k); [now right|].
  intros H. apply in_app_iff in H as [H|[<-|[]]]; auto.
Qed.

Lemma key_ok_set (d : Dict.t answer_data) k v :
  forallb key_ok (Dict.keys d) = true -> key_ok k = true ->
  forallb key_ok (Dict.keys (Dict.set d k v)) = true.
Proof.
  intros Hd Hk. apply forallb_forall. intros x Hx.
  apply keys_set_incl in Hx as [->|Hx]; [exact Hk|].
  rewrite forallb_forall in Hd. now apply Hd.
Qed.

Lemma later_keys_differ {V : Type} (before after : Dict.t V) k v :
  Dict.wf (before ++ (k, v) :: after) ->
  forall item, In item after -> fst item <> k.
Proof.
  unfold Dict.wf, Dict.keys. rewrite map_app. cbn [map fst].
  intros Hnd item Hin E. apply NoDup_remove_2 in Hnd. apply Hnd.
  apply in_or_app. right. rewrite <- E. now apply in_map.
Qed.

(** X14. An option selected on a question page is what the question scores:
    [display_question] stores it under the storage key, and
    [calculate_all_scores] on the resulting answers gives the question's id
    the grade of that option. The catalog is conformant, the keys already
    in the session are well formed, the page key and the collection id
    have no underscore, the position prints within the limit of digits,
    and no other record resolves to the same id. *)
Theorem stored_answer_scored :
  forall (question_files : Dict.t page_data) cache (session_answers : Dict.t answer_data)
         (page_key : string) (page : page_data) (col : collection)
         (question_key : Z) (q : displayed_question) (qid : string)
         (o : answer_data),
    conformant question_files = true ->
    Dict.wf session_answers ->
    forallb key_ok (Dict.keys session_answers) = true ->
    free_of "_" page_key = true ->
    free_of "_" col.(collection_id) = true ->
    Dict.get question_files page_key = Some page ->
    NoDup (map collection_id (collections_of page)) ->
    In col (collections_of page) ->
    0 <= question_key < 10 ^ Py.int_max_str_digits ->
    nth_error (questions_of col) (Z.to_nat question_key) = Some q.(the_question) ->
    q.(question_text) <> None ->
    q.(the_question).(question_id) = Some qid ->
    NoDup (map display_text (field_or q.(answer_options) [])) ->
    In o (field_or q.(answer_options) []) ->
    offered o = true ->
    (forall k, In k (Dict.keys session_answers) ->
               k <> answer_storage_key page_key col.(collection_id) question_key ->
               resolved_id question_files k <> Some qid) ->
    exists after sd,
      display_question q question_key page_key col.(collection_id)
                       (Some (display_text o)) session_answers = Ok after
      /\ Dict.get after (answer_storage_key page_key col.(collection_id) question_key)
         = Some o
      /\ returns calculate_all_scores (call question_files cache after) = Ok sd
      /\ Dict.get (indicator_scores sd) qid
         = Some (option_id_to_grade o.(option_id)).
Proof.
  intros qf cache sa p page col i q qid o Hc Hwf Hkeys Hp Hcid Hget Hnd Hcol Hi
         Hq Htext Hid Hdis Hin Hoff Hother.
  set (key := answer_storage_key p (collection_id col) i) in *.
  destruct (display_question_selected q i p (collection_id col) sa o)
    as (o' & Hin' & Hd & Hr); try assumption; [congruence|].
  assert (o' = o) by (eapply injective_on_list; eauto). subst o'.
  fold key in Hr.
  set (after := Dict.set sa key o) in *.
  assert (Hres : resolved_id qf key = Some qid).
  { unfold key.
    rewrite (resolved_storage_key qf p page col i (the_question q)) by assumption.
    now rewrite Hid. }
  assert (Hkeys' : forallb key_ok (Dict.keys after) = true).
  { apply key_ok_set; [assumption|]. apply storage_key_ok; try assumption; lia. }
  assert (Hafter : In (key, o) after)
    by (apply get_some_in; apply get_set_same).
  destruct (in_split _ _ Hafter) as (b & a & Esplit).
  assert (Hwf' : Dict.wf after) by now apply wf_set.
  exists after, (scores_of qf (fold_left (assign (indicator_key qf)
                                              (indicator_value qf)) after [])).
  split; [exact Hr|]. split; [apply get_set_same|]. split.
  - rewrite returns_call. unfold _calculate_indicator_scores.
    rewrite indicator_scores_fold by assumption. cbn [rbind].
    destruct after; [destruct b; discriminate|reflexivity].
  - cbn [indicator_scores scores_of]. rewrite get_fold_assign.
    rewrite Esplit.
    rewrite (last_assigned_split _ _ b (key, o) a qid
               (option_id_to_grade (option_id o))); [reflexivity| | |].
    + unfold indicator_key. cbn [fst]. now rewrite Hres.
    + unfold indicator_value. cbn [fst snd]. now rewrite Hres.
    + intros y Hy Ey. unfold indicator_value.
      destruct (resolved_id qf (fst y)) as [r|] eqn:Er; [|reflexivity].
      exfalso. unfold indicator_key in Ey. rewrite Er in Ey. cbn [field_or] in Ey.
      subst r.
      assert (Hne : fst y <> key)
        by (rewrite Esplit in Hwf'; now apply (later_keys_differ b a key o)).
      assert (Hyin : In (fst y) (Dict.keys after)).
      { rewrite Esplit. unfold Dict.keys. rewrite map_app. apply in_or_app.
        right. right. now apply in_map. }
      apply keys_set_incl in Hyin as [E|Hyin]; [contradiction|].
      exact (Hother (fst y) Hyin Hne Er).
Qed.

(** ** Reset *)





(** ** The detailed answers after a successful scoring *)




(* ===================================================================== *)
(** * The order of the answers *)
(* ===================================================================== *)

(** ** The order of the answers *)

Section AssignedOnce.
Context {A V : Type} (key : A -> string) (val : A -> option V).

Lemma last_assigned_in (k : string) (l : list A) (v : V) :
  last_assigned key val k l = Some v ->
  exists x, In x l /\ key x = k /\ val x = Some v.
Proof.
  induction l as [|y l IH]; cbn [last_assigned]; [discriminate|].
  destruct (last_assigned key val k l) as [w|].
  - intros [= <-]. destruct IH as (x & Hx & Hk & Hv); [reflexivity|].
    exists x. split; [now right|auto].
  - destruct (String.eqb_spec (key y) k) as [E|]; [|discriminate].
    intros Hv. exists y. split; [now left|auto].
Qed.

Lemma last_assigned_once (k : string) (l : list A) (x : A) (v : V) :
  (forall y z, In y l -> In z l -> key y = key z ->
               val y <> None -> val z <> None -> y = z) ->
  In x l -> key x = k -> val x = Some v ->
  last_assigned key val k l = Some v.
Proof.
  intros Honce Hx Hk Hv.
  destruct (last_assigned key val k l) as [w|] eqn:E.
  - apply last_assigned_in in E as (y & Hy & Hky & Hvy).
    assert (x = y) by (apply Honce; congruence). subst y. congruence.
  - exfalso.
    assert (Hsome : last_assigned key val k l <> None)
      by (apply last_assigned_some_iff; exists x; repeat split; congruence).
    contradiction.
Qed.

Lemma last_assigned_permutation (k : string) (l l' : list A) :
  (forall y z, In y l -> In z l -> key y = key z ->
               val y <> None -> val z <> None -> y = z) ->
  Permutation l l' ->
  last_assigned key val k l = last_assigned key val k l'.
Proof.
  intros Honce Hperm.
  assert (Honce' : forall y z, In y l' -> In z l' -> key y = key z ->
                               val y <> None -> val z <> None -> y = z).
  { intros y z Hy Hz.
    apply Honce; apply (Permutation_in _ (Permutation_sym Hperm)); assumption. }
  destruct (last_assigned key val k l) as [v|] eqn:E.
  - apply last_assigned_in in E as (x & Hx & Hk & Hv). symmetry.
    apply (last_assigned_once k l' x v); try assumption.
    apply (Permutation_in _ Hperm Hx).
  - destruct (last_assigned key val k l') as [v|] eqn:E'; [|reflexivity].
    apply last_assigned_in in E' as (x & Hx & Hk & Hv).
    rewrite (last_assigned_once k l x v) in E; try assumption; [discriminate|].
    apply (Permutation_in _ (Permutation_sym Hperm) Hx).
Qed.

End AssignedOnce.

Lemma question_scores_ext ind ind' qs :
  (forall k, Dict.get ind k = Dict.get ind' k) ->
  question_scores ind qs = question_scores ind' qs.
Proof.
  intros H. unfold question_scores. apply fold_left_ext. intros scores q.
  destruct (question_id q) as [qid|]; [|reflexivity]. now rewrite H.
Qed.

Lemma criterion_scores_ext qf ind ind' :
  (forall k, Dict.get ind k = Dict.get ind' k) ->
  _calculate_criterion_scores qf ind = _calculate_criterion_scores qf ind'.
Proof.
  intros H. unfold _calculate_criterion_scores.
  assert (Hstep : forall d c, criterion_step ind d c = criterion_step ind' d c)
    by (intros d c; unfold criterion_step; now rewrite (question_scores_ext ind ind')).
  apply fold_left_ext. intros d item. now apply fold_left_ext.
Qed.

Lemma key_ok_permutation (l l' : Dict.t answer_data) :
  Permutation l l' ->
  forallb key_ok (Dict.keys l) = true -> forallb key_ok (Dict.keys l') = true.
Proof.
  intros Hperm. rewrite !forallb_forall. intros H k Hk. apply H.
  unfold Dict.keys in *. eapply Permutation_in; [|exact Hk].
  apply Permutation_map. now apply Permutation_sym.
Qed.

Lemma indicator_scores_get qf cache answers :
  conformant qf = true -> forallb key_ok (Dict.keys answers) = true ->
  exists sd,
    returns calculate_all_scores (call qf cache answers) = Ok sd
    /\ forall qid, Dict.get (indicator_scores sd) qid
                   = last_assigned (indicator_key qf) (indicator_value qf) qid answers.
Proof.
  intros Hc Hk. rewrite returns_call. destruct answers as [|x l] eqn:Ea.
  - exists empty_scores. split; [reflexivity|]. reflexivity.
  - rewrite <- Ea in *. unfold _calculate_indicator_scores.
    rewrite indicator_scores_fold by assumption. cbn [rbind].
    eexists. split; [reflexivity|]. intros qid.
    cbn [indicator_scores scores_of]. rewrite get_fold_assign.
    now destruct (last_assigned _ _ _ _).
Qed.

(** X7. For a conformant catalog and well-formed answer keys, when no two
    records resolve to the same question id, the call returns for every
    order of the answers map, and reordering changes no indicator score
    and leaves the criterion and value maps identical. *)
Theorem answer_order_irrelevant :
  forall (question_files : Dict.t page_data) cache1 cache2
         (first second : Dict.t answer_data),
    conformant question_files = true ->
    forallb key_ok (Dict.keys first) = true ->
    Permutation first second ->
    (forall x y, In x first -> In y first ->
                 resolved_id question_files (fst x) = resolved_id question_files (fst y) ->
                 resolved_id question_files (fst x) <> None -> x = y) ->
    exists sd1 sd2,
      returns calculate_all_scores (call question_files cache1 first) = Ok sd1
      /\ returns calculate_all_scores (call question_files cache2 second) = Ok sd2
      /\ (forall qid, Dict.get (indicator_scores sd1) qid
                      = Dict.get (indicator_scores sd2) qid)
      /\ criterion_scores sd1 = criterion_scores sd2
      /\ value_scores sd1 = value_scores sd2.
Proof.
  intros qf cache1 cache2 l l' Hc Hk Hperm Honce.
  destruct (indicator_scores_get qf cache1 l Hc Hk) as (sd1 & Hr1 & Hg1).
  destruct (indicator_scores_get qf cache2 l' Hc (key_ok_permutation l l' Hperm Hk))
    as (sd2 & Hr2 & Hg2).
  exists sd1, sd2. split; [exact Hr1|]. split; [exact Hr2|].
  assert (Hind : forall qid, Dict.get (indicator_scores sd1) qid
                             = Dict.get (indicator_scores sd2) qid).
  { intros qid. rewrite Hg1, Hg2. apply last_assigned_permutation; [|exact Hperm].
    intros y z Hy Hz Ekey Hvy Hvz. apply Honce; try assumption.
    - unfold indicator_key, indicator_value in *.
      destruct (resolved_id qf (fst y)) as [a|]; [|congruence].
      destruct (resolved_id qf (fst z)) as [b|]; [|congruence].
      cbn [field_or] in Ekey. now subst.
    - unfold indicator_value in Hvy.
      destruct (resolved_id qf (fst y)); congruence. }
  destruct (score_layers _ _ Hr1) as [Ec1 Ev1].
  destruct (score_layers _ _ Hr2) as [Ec2 Ev2].
  cbn [call self_question_files] in *.
  assert (Ecrit : criterion_scores sd1 = criterion_scores sd2)
    by (rewrite Ec1, Ec2; now apply criterion_scores_ext).
  split; [exact Hind|]. split; [exact Ecrit|]. now rewrite Ev1, Ev2, Ecrit.
Qed.

(* ===================================================================== *)
(** * The presentation layer on examples *)
(* ===================================================================== *)

Lemma sample_returns :
  returns calculate_all_scores (init sample_catalog sample_answers) = Ok sample_scores.
Proof. reflexivity. Qed.

Lemma grade_codec_round_trip_witness :
  grade_to_letter (inject_Z 3) = Ok (letter_at 3)
  /\ option_id_to_grade (letter_at 3) = 3
  /\ grade_to_letter (inject_Z (option_id_to_grade "e")) = Ok (Py.upper "e")
  /\ grade_to_letter (inject_Z (option_id_to_grade "Z")) = Ok "A".
Proof.
  destruct grade_codec_round_trip as (Hn & Hin & Hout).
  destruct (Hn 3) as [H1 H2]; [lia|].
  split; [exact H1|]. split; [exact H2|]. split.
  - apply Hin. simpl. tauto.
  - apply Hout. simpl. intuition discriminate.
Defined.

Lemma displayed_grades_witness :
  score_rows (as_numbers [("I1", 1); ("I2", 3)]) = Ok [("I1", "B"); ("I2", "D")]
  /\ grade_to_letter (overall_score sample_scores) = Ok "C".
Proof.
  destruct (displayed_grades (init sample_catalog sample_answers) sample_scores
              eq_refl) as (Hi & _ & _ & _ & Ho).
  split; [exact Hi|exact Ho].
Defined.

Lemma indicator_last_answer_wins_witness :
  Dict.get (indicator_scores sample_scores) "I2" = Some 3
  /\ Dict.get (indicator_scores sample_scores) "I9" = None.
Proof.
  destruct (indicator_last_answer_wins (init sample_catalog sample_answers)
              sample_scores eq_refl eq_refl eq_refl "I2") as [Hlast _].
  destruct (indicator_last_answer_wins (init sample_catalog sample_answers)
              sample_scores eq_refl eq_refl eq_refl "I9") as [_ Hnone].
  split.
  - apply (Hlast [("Q1_C1_0", chosen "B")] "Q1_C1_1" (chosen "D") []);
      [reflexivity|reflexivity|intros item []].
  - apply Hnone. intros item [<-|[<-|[]]]; discriminate.
Defined.

Lemma storage_key_resolves_witness :
  indicator_step sample_catalog [("I1", 0)]
    (answer_storage_key "Q1" "C1" 1, chosen "D")
  = Ok [("I1", 0); ("I2", 3)].
Proof.
  apply (proj1 (storage_key_resolves sample_catalog [("I1", 0)] "Q1"
                  (sample_page "Quality"
                     [sample_collection "C1"
                        [sample_question "I1"; sample_question "I2"]])
                  [sample_collection "C1" [sample_question "I1"; sample_question "I2"]]
                  (sample_collection "C1" [sample_question "I1"; sample_question "I2"])
                  [sample_question "I1"; sample_question "I2"]
                  1 (sample_question "I2") (chosen "D")
                  eq_refl eq_refl eq_refl eq_refl
                  ltac:(repeat constructor; simpl; tauto)
                  (or_introl eq_refl) eq_refl
                  ltac:(split; [lia|reflexivity]) eq_refl)).
Defined.

Lemma score_map_keys_witness :
  In "C1" (Dict.keys (criterion_scores sample_scores))
  /\ (value_scores sample_scores = [] <-> criterion_scores sample_scores = []).
Proof.
  destruct (score_map_keys (init sample_catalog sample_answers) sample_scores
              eq_refl) as (Hc & _ & He).
  split; [|exact He].
  apply Hc. exists (sample_collection "C1" [sample_question "I1"; sample_question "I2"]).
  split; [simpl; tauto|]. split; [reflexivity|].
  exists (sample_question "I1"). split; [simpl; tauto|reflexivity].
Defined.

Lemma prefix_counted_twice_witness :
  collection_answered [("Q1_C10_0", chosen "B")] "Q1" "C10"
  <= collection_answered [("Q1_C10_0", chosen "B")] "Q1" "C1".
Proof.
  apply (prefix_counted_twice [("Q1_C10_0", chosen "B")] "Q1" "C1" "C10").
  reflexivity.
Defined.

Lemma progress_map_shape_witness :
  returns get_progress_data
    (init [("Q1", {| info := None; question_collections := None |})] [])
  = Raise KeyError
  /\ exists progress_data,
       returns get_progress_data (init sample_catalog sample_answers) = Ok progress_data
       /\ Dict.keys progress_data = ["Q1"; "overall"].
Proof.
  split.
  - apply (proj1 (progress_map_shape
                    (init [("Q1", {| info := None; question_collections := None |})]
                          []))).
    reflexivity.
  - destruct (proj2 (progress_map_shape (init sample_catalog sample_answers))
                eq_refl) as (d & Hr & Hk & _).
    + repeat constructor. simpl. tauto.
    + exists d. split; [exact Hr|exact Hk].
Defined.

Lemma sample_plain_ids : plain_ids sample_catalog.
Proof.
  intros k page [E|[]]. injection E as <- <-. split; [reflexivity|]. split.
  - intros c [<-|[]]. reflexivity.
  - intros c1 c2 [<-|[]] [<-|[]] _. reflexivity.
Qed.

Lemma sample_written_keys :
  forall k, In k (Dict.keys sample_answers) -> written_key sample_catalog k.
Proof.
  intros k [<-|[<-|[]]].
  - exists "Q1", (sample_page "Quality"
                    [sample_collection "C1" [sample_question "I1"; sample_question "I2"]]),
      (sample_collection "C1" [sample_question "I1"; sample_question "I2"]), 0.
    repeat split; try reflexivity; simpl; tauto || lia.
  - exists "Q1", (sample_page "Quality"
                    [sample_collection "C1" [sample_question "I1"; sample_question "I2"]]),
      (sample_collection "C1" [sample_question "I1"; sample_question "I2"]), 1.
    repeat split; try reflexivity; simpl; tauto || lia.
Qed.

Lemma progress_at_most_one_witness :
  exists progress_data,
    returns get_progress_data (init sample_catalog sample_answers) = Ok progress_data
    /\ Forall (fun e => 0 <= answered e <= total e /\ (0 <= progress e <= 1)%Q)
              (Dict.values progress_data).
Proof.
  apply (progress_at_most_one (init sample_catalog sample_answers)).
  - reflexivity.
  - repeat constructor. simpl. tauto.
  - repeat constructor; simpl; intuition discriminate.
  - exact sample_plain_ids.
  - exact sample_written_keys.
Defined.

Lemma display_question_stores_witness :
  exists o',
    display_text o' = display_text often
    /\ display_question first_question 0 "Q1" "C1" (Some (display_text often)) []
       = Ok (Dict.set [] (answer_storage_key "Q1" "C1" 0) o').
Proof.
  apply (proj2 (display_question_stores first_question 0 "Q1" "C1"
                  (Some (display_text often)) []) often).
  - discriminate.
  - discriminate.
  - simpl. tauto.
  - reflexivity.
  - reflexivity.
Defined.

Lemma navigation_stays_in_range_witness :
  pointer_in_range first_collection "Q1"
    (snd (display_collection first_collection "Q1"
            {| previous_pressed := false; next_pressed := true;
               save_pressed := false; radio_value := None |}
            {| pointers := []; recorded := [] |})).
Proof.
  apply (navigation_stays_in_range first_collection "Q1"
           {| previous_pressed := false; next_pressed := true;
              save_pressed := false; radio_value := None |}
           {| pointers := []; recorded := [] |}).
  intros i. discriminate.
Defined.

Lemma stored_answer_scored_witness :
  exists after sd,
    display_question first_question 0 "Q1" "C1" (Some (display_text often))
                     [("Q1_C1_1", chosen "D")] = Ok after
    /\ Dict.get after (answer_storage_key "Q1" "C1" 0) = Some often
    /\ returns calculate_all_scores (call sample_catalog None after) = Ok sd
    /\ Dict.get (indicator_scores sd) "I1" = Some 1.
Proof.
  apply (stored_answer_scored sample_catalog None [("Q1_C1_1", chosen "D")] "Q1"
           (sample_page "Quality"
              [sample_collection "C1" [sample_question "I1"; sample_question "I2"]])
           (sample_collection "C1" [sample_question "I1"; sample_question "I2"])
           0 first_question "I1" often).
  - reflexivity.
  - repeat constructor. simpl. tauto.
  - reflexivity.
  - reflexivity.
  - reflexivity.
  - reflexivity.
  - repeat constructor. simpl. tauto.
  - simpl. tauto.
  - split; [lia|reflexivity].
  - reflexivity.
  - discriminate.
  - reflexivity.
  - repeat constructor; simpl; intuition discriminate.
  - simpl. tauto.
  - reflexivity.
  - intros k [<-|[]] _. discriminate.
Defined.



Lemma answer_order_irrelevant_witness :
  exists sd1 sd2,
    returns calculate_all_scores (call sample_catalog None sample_answers) = Ok sd1
    /\ returns calculate_all_scores
         (call sample_catalog None
               [("Q1_C1_1", chosen "D"); ("Q1_C1_0", chosen "B")]) = Ok sd2
    /\ (forall qid, Dict.get (indicator_scores sd1) qid
                    = Dict.get (indicator_scores sd2) qid)
    /\ criterion_scores sd1 = criterion_scores sd2
    /\ value_scores sd1 = value_scores sd2.
Proof.
  apply (answer_order_irrelevant sample_catalog None None sample_answers
           [("Q1_C1_1", chosen "D"); ("Q1_C1_0", chosen "B")]).
  - reflexivity.
  - reflexivity.
  - apply perm_swap.
  - intros x y [<-|[<-|[]]] [<-|[<-|[]]]; try reflexivity; discriminate.
Defined.

(* ===================================================================== *)
(** * Keys that the indicator pass does not skip *)
(* ===================================================================== *)

Lemma int_raises_value_error s e : Py.int s = Raise e -> e = ValueError.
Proof.
  unfold Py.int.
  destruct (match Py.drop_blanks (Py.skip_blanks s) with
            | String "+" d => Py.digits d 0 false
            | String "-" d => option_map Z.opp (Py.digits d 0 false)
            | _ => Py.digits (Py.drop_blanks (Py.skip_blanks s)) 0 false
            end); [|congruence].
  destruct (Py.count_digits _ <=? Py.int_max_str_digits); congruence.
Qed.

Lemma indicator_step_malformed qf ind k a :
  malformed k = true -> indicator_step qf ind (k, a) = Raise ValueError.
Proof.
  unfold malformed, segments, indicator_step. intros H.
  apply andb_true_iff in H as [Hlen Hint].
  replace (List.length (Py.split "_" k) <? 3)%nat with false
    by (symmetry; apply Nat.ltb_ge; now apply Nat.leb_le).
  destruct (Py.int (nth 2 (Py.split "_" k) "")) as [n|e] eqn:E; [discriminate|].
  apply int_raises_value_error in E. now subst.
Qed.

Lemma for_each_raises {A S : Type} (body : S -> A -> result S) l x s :
  In x l -> (forall s', exists e, body s' x = Raise e) ->
  exists e, for_each body l s = Raise e.
Proof.
  revert s. induction l as [|y l IH]; intros s; cbn [In for_each]; [tauto|].
  intros [->|Hin] Hx.
  - destruct (Hx s) as [e ->]. now exists e.
  - destruct (body s y) as [s1|e]; cbn [rbind]; [now apply IH|now exists e].
Qed.

(** X17. One record whose key has at least three segments and a third
    segment that is no integer makes [calculate_all_scores] raise, whatever
    the other records and the catalog are; when the catalog is conformant
    and the records before it are well formed, the exception is
    [ValueError]. *)
Theorem malformed_key_blocks_scoring :
  forall (question_files : Dict.t page_data) cache (session_answers : Dict.t answer_data)
         (k : string),
    In k (Dict.keys session_answers) ->
    malformed k = true ->
    (exists e,
        returns calculate_all_scores (call question_files cache session_answers)
        = Raise e)
    /\ (forall before a after,
           session_answers = before ++ (k, a) :: after ->
           conformant question_files = true ->
           forallb key_ok (Dict.keys before) = true ->
           returns calculate_all_scores (call question_files cache session_answers)
           = Raise ValueError).
Proof.
  intros qf cache sa k Hin Hbad. rewrite returns_call. split.
  - unfold Dict.keys in Hin. apply in_map_iff in Hin as ([k' a] & E & Hin).
    cbn [fst] in E. subst k'.
    destruct (for_each_raises (indicator_step qf) sa (k, a) [] Hin) as [e He].
    { intros s'. exists ValueError. now apply indicator_step_malformed. }
    unfold _calculate_indicator_scores. rewrite He.
    destruct sa; [contradiction|]. now exists e.
  - intros before a after -> Hc Hk.
    unfold _calculate_indicator_scores. rewrite for_each_app.
    destruct (indicator_scores_total qf before Hc Hk []) as [ind ->].
    cbn [rbind for_each]. rewrite indicator_step_malformed by assumption.
    destruct (before ++ (k, a) :: after) eqn:E; [destruct before; discriminate|].
    reflexivity.
Qed.

Lemma malformed_key_blocks_scoring_witness :
  returns calculate_all_scores
    (call sample_catalog None [("Q1_C1_0", chosen "B"); ("Q1_C1_x", chosen "D")])
  = Raise ValueError.
Proof.
  apply (proj2 (malformed_key_blocks_scoring sample_catalog None
                  [("Q1_C1_0", chosen "B"); ("Q1_C1_x", chosen "D")] "Q1_C1_x"
                  (or_intror (or_introl eq_refl)) eq_refl)
               [("Q1_C1_0", chosen "B")] (chosen "D") []); reflexivity.
Defined.

(** ** A negative index *)

Lemma index_negative {A : Type} (l : list A) (n : Z) :
  n < 0 ->
  Py.index l n
  = if - Z.of_nat (List.length l) <=? n
    then match nth_error l (Z.to_nat (n + Z.of_nat (List.length l))) with
         | Some a => Ok a
         | None => Raise IndexError
         end
    else Raise IndexError.
Proof.
  intros Hn. unfold Py.index.
  replace (n <? 0) with true by (symmetry; lia).
  destruct (- Z.of_nat (List.length l) <=? n) eqn:E.
  - replace ((0 <=? n + Z.of_nat (List.length l))
             && (n + Z.of_nat (List.length l) <? Z.of_nat (List.length l)))
      with true by (symmetry; apply andb_true_iff; split; lia).
    reflexivity.
  - replace (0 <=? n + Z.of_nat (List.length l)) with false by (symmetry; lia).
    reflexivity.
Qed.

Lemma scan_collections_first cs cid n a ind c qs :
  n < 0 ->
  find (fun c => String.eqb c.(collection_id) cid) cs = Some c ->
  questions c = Some qs ->
  scan_collections cs cid n a ind
  = rbind (Py.index qs n)
          (fun q => Ok (Dict.set ind (field_or q.(question_id) (fallback_id cid n))
                                 (option_id_to_grade a.(option_id)))).
Proof.
  intros Hn. induction cs as [|x cs IH]; cbn [find scan_collections]; [discriminate|].
  destruct (String.eqb (collection_id x) cid); [|exact IH].
  intros [= ->] ->. cbn [field rbind].
  replace (n <? Z.of_nat (List.length qs)) with true by (symmetry; apply Z.ltb_lt; lia).
  reflexivity.
Qed.

(** X18. A negative third segment passes the length test of line 77 at the
    first collection of the page with the wanted id: the record then scores
    the question counted from the end of that collection's list, and
    raises [IndexError] when the list is shorter than the index is
    negative. *)
Theorem negative_index_counts_from_end :
  forall (question_files : Dict.t page_data) (ind : Dict.t Z) (k : string)
         (a : answer_data) (n : Z) (page : page_data) (cs : list collection)
         (c : collection) (qs : list question),
    (3 <= List.length (segments k))%nat ->
    Py.int (nth 2 (segments k) "") = Ok n ->
    n < 0 ->
    Dict.get question_files (nth 0 (segments k) "") = Some page ->
    question_collections page = Some cs ->
    find (fun c => String.eqb c.(collection_id) (nth 1 (segments k) "")) cs = Some c ->
    questions c = Some qs ->
    (- Z.of_nat (List.length qs) <= n ->
     exists q,
       nth_error qs (Z.to_nat (n + Z.of_nat (List.length qs))) = Some q
       /\ indicator_step question_files ind (k, a)
          = Ok (Dict.set ind
                  (field_or q.(question_id) (fallback_id (nth 1 (segments k) "") n))
                  (option_id_to_grade a.(option_id))))
    /\ (n < - Z.of_nat (List.length qs) ->
        indicator_step question_files ind (k, a) = Raise IndexError).
Proof.
  intros qf ind k a n page cs c qs Hlen Hint Hn Hget Hcs Hfind Hqs.
  unfold segments in *.
  assert (Estep : indicator_step qf ind (k, a)
                  = rbind (Py.index qs n)
                      (fun q => Ok (Dict.set ind
                                      (field_or q.(question_id)
                                         (fallback_id (nth 1 (Py.split "_" k) "") n))
                                      (option_id_to_grade a.(option_id))))).
  { unfold indicator_step.
    replace (List.length (Py.split "_" k) <? 3)%nat with false
      by (symmetry; apply Nat.ltb_ge; exact Hlen).
    rewrite Hint. cbn [rbind]. rewrite Hget, Hcs. cbn [field rbind].
    now apply (scan_collections_first cs _ n a ind c qs). }
  rewrite Estep, index_negative by assumption. split.
  - intros Hge. replace (- Z.of_nat (List.length qs) <=? n) with true
      by (symmetry; lia).
    destruct (nth_error qs (Z.to_nat (n + Z.of_nat (List.length qs)))) as [q|] eqn:E.
    + exists q. split; reflexivity.
    + apply nth_error_None in E. lia.
  - intros Hlt. replace (- Z.of_nat (List.length qs) <=? n) with false
      by (symmetry; lia).
    reflexivity.
Qed.

Lemma negative_index_counts_from_end_witness :
  indicator_step sample_catalog [] ("Q1_C1_-1", chosen "B") = Ok [("I2", 1)]
  /\ indicator_step sample_catalog [] ("Q1_C1_-3", chosen "B") = Raise IndexError.
Proof.
  split.
  - destruct (proj1 (negative_index_counts_from_end sample_catalog []
                       "Q1_C1_-1" (chosen "B") (-1)
                       (sample_page "Quality"
                          [sample_collection "C1"
                             [sample_question "I1"; sample_question "I2"]])
                       [sample_collection "C1" [sample_question "I1"; sample_question "I2"]]
                       (sample_collection "C1" [sample_question "I1"; sample_question "I2"])
                       [sample_question "I1"; sample_question "I2"]
                       (le_n 3) eq_refl eq_refl eq_refl eq_refl eq_refl eq_refl))
      as (q & Hq & Hstep).
    + cbn. lia.
    + rewrite Hstep. cbn in Hq. injection Hq as <-. reflexivity.
  - apply (proj2 (negative_index_counts_from_end sample_catalog []
                    "Q1_C1_-3" (chosen "B") (-3)
                    (sample_page "Quality"
                       [sample_collection "C1"
                          [sample_question "I1"; sample_question "I2"]])
                    [sample_collection "C1" [sample_question "I1"; sample_question "I2"]]
                    (sample_collection "C1" [sample_question "I1"; sample_question "I2"])
                    [sample_question "I1"; sample_question "I2"]
                    (le_n 3) eq_refl eq_refl eq_refl eq_refl eq_refl eq_refl)).
    cbn. lia.
Defined.
